(** * rtlamr receiver: a shallow embedding of recv.go

    The development follows [src/recv.go]: [NewReceiver] picks one or
    two parsers from the message type, [Run] starts the splitter
    goroutine, one looper goroutine per parser and waits on a
    [sync.WaitGroup].  The looper is written in a small state monad over
    the process-wide objects it touches (the identifier map of the
    [-filterid] flag, the filter chain, the encoder, the log file and
    the sample file); [log.Fatal] is the monad's abrupt exit.

    The packages the file imports ([parse], [scm], [idm], [r900],
    [rtltcp], the encoders) are not part of this file: their objects are
    records of functions over opaque state types collected in the class
    [Extern]. *)

From Stdlib Require Import ZArith.
From stdpp Require Import gmap strings list sorting.

Open Scope Z_scope.

(** ** Data of the [parse] package, as recv.go uses it *)

(** Raw sample bytes. *)
Abbreviation bytes := (list Byte.byte).

(** [parse.Message]: recv.go calls [MeterID()] only; [MeterType()] is
    what the type filter reads. *)
Record Packet := mkPacket {
  MeterID : N;
  MeterType : N;
  Payload : string
}.

(** [parse.PacketConfig], the fields recv.go reads through [p.Cfg()]. *)
Record PacketConfig := mkCfg {
  BlockSize2 : Z;
  BufferLength : Z;
  CenterFreq : Z;
  SampleRate : Z
}.

(** [parse.LogMessage]. *)
Record LogMessage := mkMsg {
  Time : Z;
  Offset : Z;
  Length : Z;
  Message : Packet
}.

(** Go's [int] on a 64-bit platform: results wrap to the signed range. *)
Definition wrap_int (z : Z) : Z := (z + 2 ^ 63) mod 2 ^ 64 - 2 ^ 63.

(** [x << 1] on [int]. *)
Definition shl1 (x : Z) : Z := wrap_int (Z.shiftl x 1).

(** [parse.Parser]: [Cfg()], [Dec().Decode(block)], [Parse(indices)] and
    the decoder's [IQ] buffer, over the decoder's own state. *)
Record Parser (D : Type) := mkParser {
  Cfg : PacketConfig;
  Dec0 : D;
  Decode : D → bytes → D * list Z;
  Parse : D → list Z → D * list Packet;
  IQ : D → bytes
}.
Arguments Cfg {D} _.
Arguments Dec0 {D} _.
Arguments Decode {D} _ _ _.
Arguments Parse {D} _ _ _.
Arguments IQ {D} _ _.

(** The filters [NewReceiver] adds to the chain (lines 93-98). *)
Inductive Filter := UniqueFilter | MeterIDFilter | MeterTypeFilter.

(** The dynamic type of the global [encoder]: the looper only asks
    whether it is [*xml.Encoder]. *)
Inductive EncoderType := XmlEncoder | OtherEncoder (name : string).

(** The global [encoder]: [Encode] yields the bytes that reach the log
    file and the error it returns. *)
Record Encoder (E : Type) := mkEncoder {
  enc_type : EncoderType;
  Encode : E → LogMessage → E * string * option string
}.
Arguments enc_type {E} _.
Arguments Encode {E} _ _ _.

(** The opaque collaborators. *)
Class Extern := {
  DecState : Type;
  FcState : Type;
  EncState : Type;
  (** [fc.Match(pkt)]: reads the identifier map, may update the state
      of the stateful filters. *)
  Match : list Filter → gset N → FcState → Packet → bool * FcState;
  (** [strings.ToLower]. *)
  ToLower : string → string;
  scm_NewParser : Z → Z → Parser DecState;
  idm_NewParser : Z → Z → Parser DecState;
  r900_NewParser : Z → Z → Parser DecState
}.

(** [os.DevNull]. *)
Definition DevNull : string := "/dev/null".

Definition newline : string := String (Ascii.ascii_of_nat 10) EmptyString.

(** The reasons a looper goroutine is over. *)
Inductive StopReason :=
  Interrupted | DeadlineReached | CompletionSetEmpty | FatalError.

(** What an iteration of the looper's [for] does next. *)
Inductive Control := Continue | Return (r : StopReason).

(** What the process has done, in order. *)
Inductive Event :=
| EvAccept (pkt : Packet)                        (* fc.Match(pkt) was true *)
| EvEncode (m : LogMessage)                      (* Encode(msg) returned nil *)
| EvEncodeFailed (m : LogMessage) (e : string)   (* Encode(msg) returned e *)
| EvNewline                                      (* fmt.Fprintln(logFile) *)
| EvSampleWrite (bs : bytes)                     (* sampleFile.Write(bs) returned nil *)
| EvSampleWriteFailed (bs : bytes) (e : string)  (* sampleFile.Write(bs) returned e *)
| EvTimeLimit (elapsed : Z)                      (* the Println of line 157 *)
| EvFatal (s : string).                          (* log.Fatal(s) *)

Section Model.
Context `{Extern}.

(** The command-line flags and globals recv.go reads. *)
Record Flags := mkFlags {
  msgType : string;
  symbolLength : Z;
  decimation : Z;
  quiet : bool;
  timeLimit : Z;
  single : bool;
  sampleFilename : string;
  encoder : Encoder EncState;
  (** the names [flag.Visit] passes to its callback, in its order *)
  visited : list string
}.

(** The objects shared by every goroutine of the process. *)
Record World := mkWorld {
  UintMap : gset N;          (* meterID.UintMap *)
  fcst : FcState;
  encst : EncState;
  logFile : string;
  sampleFile : bytes;
  clock : nat → Z;           (* the k-th reading of time.Now() *)
  ticks : nat;               (* readings taken so far *)
  trace : list Event
}.

Definition set_UintMap (w : World) (m : gset N) : World :=
  mkWorld m (fcst w) (encst w) (logFile w) (sampleFile w) (clock w) (ticks w) (trace w).
Definition set_fcst (w : World) (s : FcState) : World :=
  mkWorld (UintMap w) s (encst w) (logFile w) (sampleFile w) (clock w) (ticks w) (trace w).
Definition set_encst (w : World) (s : EncState) : World :=
  mkWorld (UintMap w) (fcst w) s (logFile w) (sampleFile w) (clock w) (ticks w) (trace w).
Definition log_append (w : World) (s : string) : World :=
  mkWorld (UintMap w) (fcst w) (encst w) (logFile w ++ s) (sampleFile w) (clock w) (ticks w) (trace w).
Definition sample_append (w : World) (bs : bytes) : World :=
  mkWorld (UintMap w) (fcst w) (encst w) (logFile w) (sampleFile w ++ bs) (clock w) (ticks w) (trace w).
Definition tick (w : World) : World :=
  mkWorld (UintMap w) (fcst w) (encst w) (logFile w) (sampleFile w) (clock w) (S (ticks w)) (trace w).
Definition emit (w : World) (e : Event) : World :=
  mkWorld (UintMap w) (fcst w) (encst w) (logFile w) (sampleFile w) (clock w) (ticks w) (trace w ++ [e]).

(** ** The monad of the looper *)

Inductive Res (A : Type) :=
| Ok (a : A) (w : World)
| Exit (w : World).      (* log.Fatal: the process is gone *)
Arguments Ok {A} _ _.
Arguments Exit {A} _.

Definition M (A : Type) := World → Res A.

Definition ret {A} (a : A) : M A := fun w => Ok a w.
Definition bind {A B} (c : M A) (k : A → M B) : M B :=
  fun w => match c w with
           | Ok a w' => k a w'
           | Exit w' => Exit w'
           end.

Notation "'let*' x ':=' c 'in' k" := (bind c (fun x => k))
  (at level 10, x name, c at level 100, k at level 200).
Notation "'run' c 'in' k" := (bind c (fun _ => k))
  (at level 10, c at level 100, k at level 200).

(** [log.Fatal(msg)]: the message goes to the diagnostic log, then
    [os.Exit(1)]. *)
Definition log_Fatal {A} (msg : string) : M A :=
  fun w => Exit (emit w (EvFatal msg)).

Definition fc_Match (fc : list Filter) (pkt : Packet) : M bool :=
  fun w => let '(b, s) := Match fc (UintMap w) (fcst w) pkt in
           Ok b (if b then emit (set_fcst w s) (EvAccept pkt) else set_fcst w s).

Definition time_Now : M Z :=
  fun w => Ok (clock w (ticks w)) (tick w).

(** [sampleFile.Seek(0, os.SEEK_CUR)].
    Modelled from the spec: the raw-capture sink (opened outside
    recv.go) is an append-only byte writer with a queryable current
    offset, so the position is the number of bytes written. *)
Definition sampleFile_Seek_cur : M Z :=
  fun w => Ok (Z.of_nat (length (sampleFile w))) w.

Definition encoder_Encode (enc : Encoder EncState) (msg : LogMessage) : M (option string) :=
  fun w => let '(s, out, err) := Encode enc (encst w) msg in
           let w1 := log_append (set_encst w s) out in
           Ok err (emit w1 (match err with
                            | None => EvEncode msg
                            | Some e => EvEncodeFailed msg e
                            end)).

(** [fmt.Fprintln(logFile)]. *)
Definition Fprintln_logFile : M unit :=
  fun w => Ok tt (emit (log_append w newline) EvNewline).

Definition len_UintMap : M nat :=
  fun w => Ok (size (UintMap w)) w.

(** [delete(meterID.UintMap, k)]. *)
Definition delete_UintMap (k : N) : M unit :=
  fun w => Ok tt (set_UintMap w (UintMap w ∖ {[k]})).

(** [sampleFile.Write(bs)]; [fail = Some (n, e)] is a write that stores
    [n] bytes and returns the error [e]. *)
Definition sampleFile_Write (bs : bytes) (fail : option (nat * string)) : M (option string) :=
  fun w => match fail with
           | None => Ok None (emit (sample_append w bs) (EvSampleWrite bs))
           | Some (n, e) =>
               Ok (Some e) (emit (sample_append w (take n bs)) (EvSampleWriteFailed bs e))
           end.

(** The type assertion of line 187: is the encoder an [xml.Encoder]? *)
Definition is_xml_Encoder (enc : Encoder EncState) : bool :=
  match enc_type enc with
  | XmlEncoder => true
  | OtherEncoder _ => false
  end.

(** ** The looper (lines 139-214) *)

(** Lines 174-178. *)
Definition new_LogMessage (p : Parser DecState) (pkt : Packet) : M LogMessage :=
  let* t := time_Now in
  let* off := sampleFile_Seek_cur in
  ret (mkMsg t off (shl1 (BufferLength (Cfg p))) pkt).

(** The [for _, pkt := range p.Parse(indices)] loop (lines 169-199);
    the result is [pktFound]. *)
Fixpoint range_packets (fl : Flags) (fc : list Filter) (p : Parser DecState)
    (pkts : list Packet) (pktFound : bool) : M bool :=
  match pkts with
  | [] => ret pktFound
  | pkt :: rest =>
      let* ok := fc_Match fc pkt in
      if negb ok then range_packets fl fc p rest pktFound     (* continue *)
      else
        let* msg := new_LogMessage p pkt in
        let* err := encoder_Encode (encoder fl) msg in
        match err with
        | Some e => log_Fatal ("Error encoding message: " ++ e)
        | None =>
            run (if is_xml_Encoder (encoder fl) then Fprintln_logFile else ret tt) in
            if single fl then
              let* n := len_UintMap in
              if (n =? 0)%nat then ret true                     (* break *)
              else run delete_UintMap (MeterID pkt) in
                   range_packets fl fc p rest true
            else range_packets fl fc p rest true
        end
  end.

(** [io.ReadFull(in, block)] as the looper sees it. *)
Inductive ReadResult := ReadOk (block : bytes) | ReadErr (e : string).

(** What the environment decides during one pass of the [for]. *)
Record Stimulus := mkStim {
  sigint_pending : bool;     (* a signal waits on [sigint] *)
  tLimit_fired : bool;       (* the timer of [time.After] has fired *)
  select_pick : bool;        (* the case [select] takes when both are ready *)
  write_error : option (nat * string)
}.

(** The [default] case of the [select] once the block is read
    (lines 160-211). *)
Definition looper_body (fl : Flags) (fc : list Filter) (p : Parser DecState)
    (d : DecState) (rd : ReadResult) (st : Stimulus) : M (DecState * Control) :=
  match rd with
  | ReadErr e => log_Fatal ("Error reading samples: " ++ e)
  | ReadOk block =>
      let '(d1, indices) := Decode p d block in
      let '(d2, pkts) := Parse p d1 indices in
      let* pktFound := range_packets fl fc p pkts false in
      if pktFound then
        run (if bool_decide (sampleFilename fl ≠ DevNull) then
               let* err := sampleFile_Write (IQ p d2) (write_error st) in
               match err with
               | Some e => log_Fatal ("Error writing raw samples to file:" ++ e)
               | None => ret tt
               end
             else ret tt) in
        let* n := len_UintMap in
        if single fl && (n =? 0)%nat then ret (d2, Return CompletionSetEmpty)
        else ret (d2, Continue)
      else ret (d2, Continue)
  end.

(** ** The [select] at the top of the loop (lines 153-159) *)

Inductive Selected := SelSigint | SelTLimit | SelDefault.

(** [tLimit] is a channel nobody sends on unless [*timeLimit != 0];
    with both cases ready [select] takes either. *)
Definition select_case (fl : Flags) (st : Stimulus) : Selected :=
  let s := sigint_pending st in
  let t := negb (timeLimit fl =? 0) && tLimit_fired st in
  match s, t with
  | true, true => if select_pick st then SelSigint else SelTLimit
  | true, false => SelSigint
  | false, true => SelTLimit
  | false, false => SelDefault
  end.

(** ** Conduits: the two [io.Pipe]s *)

(** The bytes written and not yet read, whether the pipe was closed, and
    the [Write] calls it has received.  A writer is not held back here:
    the model keeps the order and the content of the bytes, not the
    rendezvous of [io.Pipe]. *)
Record Conduit := mkConduit {
  cbuf : bytes;
  cclosed : bool;
  cwrites : list bytes
}.

(** [io.Pipe()]. *)
Definition Pipe : Conduit := mkConduit [] false [].

(** [out.Write(bs)]; the result is dropped by the caller, a closed pipe
    takes nothing. *)
Definition conduit_Write (c : Conduit) (bs : bytes) : Conduit :=
  if cclosed c then c
  else mkConduit (cbuf c ++ bs) false (cwrites c ++ [bs]).

(** [io.ReadFull(in, block)] on a pipe with [n = len(block)]: [None]
    while the call is blocked. *)
Definition conduit_ReadFull (c : Conduit) (n : nat) : option (ReadResult * Conduit) :=
  if (n <=? length (cbuf c))%nat then
    Some (ReadOk (take n (cbuf c)), mkConduit (drop n (cbuf c)) (cclosed c) (cwrites c))
  else if cclosed c then
    Some (ReadErr (match cbuf c with [] => "EOF" | _ => "unexpected EOF" end),
          mkConduit [] true (cwrites c))
  else None.

(** ** The receiver *)

Record Receiver := mkReceiver {
  rcvr_p : Parser DecState;
  rcvr_q : option (Parser DecState);      (* [None] is Go's nil *)
  rcvr_fc : list Filter
}.

(** The callback of [flag.Visit] (lines 85-100), the part that builds
    the filter chain. *)
Definition visit_flag (fc : list Filter) (name : string) : list Filter :=
  if String.eqb name "unique" then fc ++ [UniqueFilter]
  else if String.eqb name "filterid" then fc ++ [MeterIDFilter]
  else if String.eqb name "filtertype" then fc ++ [MeterTypeFilter]
  else fc.

(** [NewReceiver] (lines 48-117): [inl msg] is [log.Fatal].  The tuner
    commands of lines 102-114 go to the SDR and touch nothing the rest
    of the file reads. *)
Definition NewReceiver (fl : Flags) (connect_err : option string) : string + Receiver :=
  let t := ToLower (msgType fl) in
  let sl := symbolLength fl in
  let dc := decimation fl in
  let parsers :=
    if String.eqb t "scm" then Some (scm_NewParser sl dc, None)
    else if String.eqb t "idm" then Some (idm_NewParser sl dc, None)
    else if String.eqb t "scm+idm" then Some (idm_NewParser sl dc, Some (scm_NewParser sl dc))
    else if String.eqb t "r900" then Some (r900_NewParser sl dc, None)
    else None in
  match parsers with
  | None => inl ("Invalid message type: " ++ msgType fl)%string
  | Some (p, q) =>
      match connect_err with
      | Some e => inl e
      | None => inr (mkReceiver p q (fold_left visit_flag (visited fl) []))
      end
  end.

(** ** The goroutines of [Run] *)

Inductive PipeId := In1 | In2.

Inductive Status :=
| Starting                 (* before the [for] *)
| AtSelect                 (* at the top of the [for] *)
| InReadFull               (* inside [io.ReadFull] *)
| Stopped (r : StopReason).

(** A [go looper(p, fc, in)]. *)
Record Task := mkTask {
  t_parser : Parser DecState;
  t_in : PipeId;
  t_dec : DecState;
  t_status : Status
}.

Definition set_status (t : Task) (st : Status) : Task :=
  mkTask (t_parser t) (t_in t) (t_dec t) st.

(** What [rcvr.Read(tcpBlock)] returns: the bytes read or an error. *)
Inductive SourceRead := SrcData (bs : bytes) | SrcErr (e : string).

Record System := mkSystem {
  world : World;
  start : Z;
  splitter_running : bool;
  out : Conduit;
  out2 : Conduit;
  loopers : list Task;
  wg : Z;                    (* the counter of the WaitGroup *)
  exited : bool;             (* [os.Exit] was called *)
  main_returned : bool       (* [wg.Wait()] has returned *)
}.

Definition conduit_of (s : System) (i : PipeId) : Conduit :=
  match i with In1 => out s | In2 => out2 s end.

(** The splitter goroutine (lines 123-135), one pass of its [for]. *)
Definition splitter_step (rcvr : Receiver) (r : SourceRead) (s : System) : System :=
  if splitter_running s then
    match r with
    | SrcErr _ =>
        mkSystem (world s) (start s) false (out s) (out2 s) (loopers s)
                 (wg s) (exited s) (main_returned s)
    | SrcData bs =>
        let chunk := take (Z.to_nat 16384) bs in
        mkSystem (world s) (start s) true
                 (conduit_Write (out s) chunk)
                 (match rcvr_q rcvr with
                  | Some _ => conduit_Write (out2 s) chunk
                  | None => out2 s
                  end)
                 (loopers s) (wg s) (exited s) (main_returned s)
    end
  else s.

(** The outcome of one scheduling step of a looper. *)
Record LooperStep := mkLS {
  ls_task : Task;
  ls_conduit : Conduit;
  ls_world : World;
  ls_exit : bool
}.

(** From [io.ReadFull] to the end of the pass. *)
Definition looper_read (fl : Flags) (fc : list Filter) (t : Task) (c : Conduit)
    (st : Stimulus) (w : World) : LooperStep :=
  match conduit_ReadFull c (Z.to_nat (BlockSize2 (Cfg (t_parser t)))) with
  | None => mkLS (set_status t InReadFull) c w false
  | Some (rd, c') =>
      match looper_body fl fc (t_parser t) (t_dec t) rd st w with
      | Ok (d, Continue) w' => mkLS (mkTask (t_parser t) (t_in t) d AtSelect) c' w' false
      | Ok (d, Return r) w' => mkLS (mkTask (t_parser t) (t_in t) d (Stopped r)) c' w' false
      | Exit w' => mkLS (set_status t (Stopped FatalError)) c' w' true
      end
  end.

(** One scheduling step of a looper goroutine.  [make] panics on a
    negative length; [fmt.Println] of line 157 reads the clock for
    [time.Since(start)]. *)
Definition looper_step (fl : Flags) (fc : list Filter) (start_time : Z) (t : Task)
    (c : Conduit) (st : Stimulus) (w : World) : LooperStep :=
  match t_status t with
  | Stopped _ => mkLS t c w false
  | Starting =>
      if BlockSize2 (Cfg (t_parser t)) <? 0
      then mkLS (set_status t (Stopped FatalError)) c
                (emit w (EvFatal "panic: makeslice: len out of range")) true
      else mkLS (set_status t AtSelect) c w false
  | AtSelect =>
      match select_case fl st with
      | SelSigint => mkLS (set_status t (Stopped Interrupted)) c w false
      | SelTLimit =>
          mkLS (set_status t (Stopped DeadlineReached)) c
               (emit (tick w) (EvTimeLimit (clock w (ticks w) - start_time))) false
      | SelDefault => looper_read fl fc t c st w
      end
  | InReadFull => looper_read fl fc t c st w
  end.

(** What the scheduler lets happen next. *)
Inductive Action :=
| ActSplitter (r : SourceRead)
| ActLooper (i : nat) (st : Stimulus)
| ActMain.

Definition put_looper (s : System) (i : nat) (r : LooperStep) (which : PipeId) : System :=
  mkSystem (ls_world r) (start s) (splitter_running s)
           (match which with In1 => ls_conduit r | In2 => out s end)
           (match which with In1 => out2 s | In2 => ls_conduit r end)
           (<[i := ls_task r]> (loopers s))
           (wg s) (ls_exit r) (main_returned s).

(** [wg.Wait()] returns when the counter is zero. *)
Definition wg_Wait (s : System) : System :=
  if wg s =? 0
  then mkSystem (world s) (start s) (splitter_running s) (out s) (out2 s)
                (loopers s) (wg s) (exited s) true
  else s.

(** One step of the process; nothing runs after [os.Exit] or after
    [Run] has returned to [main]. *)
Definition sys_step (fl : Flags) (rcvr : Receiver) (s : System) (a : Action) : System :=
  if exited s || main_returned s then s
  else match a with
       | ActSplitter r => splitter_step rcvr r s
       | ActLooper i st =>
           match loopers s !! i with
           | None => s
           | Some t =>
               put_looper s i
                 (looper_step fl (rcvr_fc rcvr) (start s) t (conduit_of s (t_in t)) st (world s))
                 (t_in t)
           end
       | ActMain => wg_Wait s
       end.

Definition sys_run (fl : Flags) (rcvr : Receiver) (s : System) (sched : list Action) : System :=
  fold_left (sys_step fl rcvr) sched s.

(** [wg.Add(n)]. *)
Definition wg_Add (n : Z) (s : System) : System :=
  mkSystem (world s) (start s) (splitter_running s) (out s) (out2 s)
           (loopers s) (wg s + n) (exited s) (main_returned s).

(** [go looper(p, fc, in)]. *)
Definition go_looper (p : Parser DecState) (i : PipeId) (s : System) : System :=
  mkSystem (world s) (start s) (splitter_running s) (out s) (out2 s)
           (loopers s ++ [mkTask p i (Dec0 p) Starting])
           (wg s) (exited s) (main_returned s).

(** [Run] (lines 119-225) up to [wg.Wait()]: the state in which the
    goroutines are started and [main] is about to wait. *)
Definition Run (rcvr : Receiver) (w : World) : System :=
  let s0 := mkSystem (tick w) (clock w (ticks w)) true Pipe Pipe [] 0 false false in
  let s1 := go_looper (rcvr_p rcvr) In1 (wg_Add 1 s0) in
  match rcvr_q rcvr with
  | Some q => go_looper q In2 (wg_Add 1 s1)
  | None => s1
  end.

End Model.

Arguments Ok {H A} _ _.
Arguments Exit {H A} _.

(** ** Reading the capture file back, and what a record delimiter is *)


(** The messages of the successful [Encode] calls of a trace. *)
Definition encoded (tr : list Event) : list LogMessage :=
  omap (fun e => match e with EvEncode m => Some m | _ => None end) tr.

(** The messages handed to [Encode], whatever it returned. *)
Definition created (tr : list Event) : list LogMessage :=
  omap (fun e => match e with
                 | EvEncode m | EvEncodeFailed m _ => Some m
                 | _ => None
                 end) tr.

(** The buffers handed to [sampleFile.Write]. *)
Definition sample_writes (tr : list Event) : list bytes :=
  omap (fun e => match e with
                 | EvSampleWrite bs | EvSampleWriteFailed bs _ => Some bs
                 | _ => None
                 end) tr.

(** The packets the filter chain accepted. *)
Definition accepted (tr : list Event) : list Packet :=
  omap (fun e => match e with EvAccept pkt => Some pkt | _ => None end) tr.

(** How often [fmt.Fprintln(logFile)] ran. *)
Definition newlines (tr : list Event) : nat :=
  length (omap (fun e => match e with EvNewline => Some tt | _ => None end) tr).

(** The events of one accepted packet that is encoded: the match, the
    encode and, for the XML encoder, the new line. *)
Definition record_events (xml : bool) (m : LogMessage) : list Event :=
  EvAccept (Message m) :: EvEncode m :: (if xml then [EvNewline] else []).

(** The world a computation of the looper ends in. *)
Definition res_world `{Extern} {A} (r : Res A) : World :=
  match r with Ok _ w => w | Exit w => w end.

(** The comment of lines 185-186 takes a format to delimit its records
    when it writes a new line after each element. *)
Fixpoint ends_with_newline (s : string) : bool :=
  match s with
  | EmptyString => false
  | String c EmptyString => Ascii.eqb c (Ascii.ascii_of_nat 10)
  | String _ rest => ends_with_newline rest
  end.

(** ** Predicates for the properties of the looper *)

Section Predicates.
Context `{Extern}.

(** What the packet loop has done when it is over: the messages it
    encoded, in order, and what it left untouched. *)
Definition loop_facts (p : Parser DecState) (w w' : World)
    (msgs : list LogMessage) : Prop :=
  sampleFile w' = sampleFile w
  ∧ clock w' = clock w
  ∧ ticks w' = (ticks w + length msgs)%nat
  ∧ map Time msgs = map (clock w) (seq (ticks w) (length msgs))
  ∧ Forall (fun m => Offset m = Z.of_nat (length (sampleFile w))
                     ∧ Length m = shl1 (BufferLength (Cfg p))) msgs
  ∧ UintMap w' ⊆ UintMap w.

Definition loop_post (fl : Flags) (p : Parser DecState) (w : World) (found : bool)
    (r : Res bool) : Prop :=
  match r with
  | Ok found' w' =>
      ∃ msgs,
        loop_facts p w w' msgs
        ∧ trace w' = trace w ++ flat_map (record_events (is_xml_Encoder (encoder fl))) msgs
        ∧ found' = found || negb (bool_decide (msgs = []))
        ∧ (single fl = true → ∀ m, m ∈ msgs → MeterID (Message m) ∉ UintMap w')
        ∧ (single fl = false → UintMap w' = UintMap w)
  | Exit w' =>
      ∃ msgs m e,
        loop_facts p w w' (msgs ++ [m])
        ∧ trace w' = trace w ++ flat_map (record_events (is_xml_Encoder (encoder fl))) msgs
                     ++ [EvAccept (Message m); EvEncodeFailed m e;
                         EvFatal ("Error encoding message: " ++ e)]
  end.

(** Whether the pass that encoded [msgs] writes the sample window
    (lines 201-202). *)
Definition captures (fl : Flags) (msgs : list LogMessage) : bool :=
  negb (bool_decide (msgs = [])) && bool_decide (sampleFilename fl ≠ DevNull).

(** The loop ended normally in [w1] after encoding [msgs]. *)
Definition loop_ok (fl : Flags) (w w1 : World) (msgs : list LogMessage) : Prop :=
  trace w1 = trace w ++ flat_map (record_events (is_xml_Encoder (encoder fl))) msgs
  ∧ (single fl = true → ∀ m, m ∈ msgs → MeterID (Message m) ∉ UintMap w1)
  ∧ (single fl = false → UintMap w1 = UintMap w).

Definition body_post (fl : Flags) (p : Parser DecState) (d2 : DecState)
    (st : Stimulus) (w : World) (r : Res (DecState * Control)) : Prop :=
  ∃ w1 msgs,
    loop_facts p w w1 msgs
    ∧ match r with
      | Ok (d', ctl) w' =>
          d' = d2
          ∧ loop_ok fl w w1 msgs
          ∧ (captures fl msgs = true → write_error st = None)
          ∧ w' = (if captures fl msgs
                  then emit (sample_append w1 (IQ p d2)) (EvSampleWrite (IQ p d2))
                  else w1)
          ∧ ctl = (if negb (bool_decide (msgs = [])) && single fl
                      && (size (UintMap w1) =? 0)%nat
                   then Return CompletionSetEmpty else Continue)
      | Exit w' =>
          (∃ ms m e, msgs = ms ++ [m] ∧ w' = w1
             ∧ trace w1 = trace w ++ flat_map (record_events (is_xml_Encoder (encoder fl))) ms
                          ++ [EvAccept (Message m); EvEncodeFailed m e;
                              EvFatal ("Error encoding message: " ++ e)])
          ∨ (∃ n e, loop_ok fl w w1 msgs
             ∧ captures fl msgs = true ∧ write_error st = Some (n, e)
             ∧ w' = emit (emit (sample_append w1 (take n (IQ p d2)))
                               (EvSampleWriteFailed (IQ p d2) e))
                         (EvFatal ("Error writing raw samples to file:" ++ e)))
      end.

(** Whether a computation of the looper ended in [log.Fatal]. *)
Definition res_exit {A} (r : Res A) : bool :=
  match r with Ok _ _ => false | Exit _ => true end.

(** What follows the packet loop in a pass: nothing, a fatal message,
    or the write of the sample window [iq], which stores [written];
    [exits] tells whether the process is gone. *)
Definition tail_shape (fl : Flags) (msgs : list LogMessage) (failed tail : list Event)
    (written : bytes) (exits : bool) : Prop :=
  (tail = [] ∧ written = [] ∧ exits = false)
  ∨ (∃ s, tail = [EvFatal s] ∧ written = [] ∧ exits = true)
  ∨ (∃ iq, msgs ≠ [] ∧ failed = [] ∧ sampleFilename fl ≠ DevNull
           ∧ ((tail = [EvSampleWrite iq] ∧ written = iq ∧ exits = false)
              ∨ ∃ e n, tail = [EvSampleWriteFailed iq e;
                               EvFatal ("Error writing raw samples to file:" ++ e)]
                       ∧ written = take n iq ∧ exits = true)).

(** How a pass that got its block ends the scheduling step. *)
Definition step_of_body (t : Task) (c' : Conduit) (b : Res (DecState * Control))
    : LooperStep :=
  match b with
  | Ok (d, Continue) w' => mkLS (mkTask (t_parser t) (t_in t) d AtSelect) c' w' false
  | Ok (d, Return r) w' => mkLS (mkTask (t_parser t) (t_in t) d (Stopped r)) c' w' false
  | Exit w' => mkLS (set_status t (Stopped FatalError)) c' w' true
  end.

(** In single-shot mode, while the process lives, the identifier map is
    a subset of the initial one and holds no identifier of a logged
    message. *)
Definition single_inv (U0 : gset N) (s : System) : Prop :=
  exited s = false →
  UintMap (world s) ⊆ U0
  ∧ ∀ m, m ∈ encoded (trace (world s)) → MeterID (Message m) ∉ UintMap (world s).

End Predicates.

(** ** What the splitter should forward *)



(** ** What the capture file should hold *)

(** The sample windows of the writes that succeeded, in order. *)
Definition written_windows (tr : list Event) : list bytes :=
  omap (fun e => match e with EvSampleWrite bs => Some bs | _ => None end) tr.

(** ** The identifiers in the log *)

(** The meter identifiers of the messages a trace logged. *)
Definition logged_ids (tr : list Event) : gset N :=
  list_to_set (map (fun m => MeterID (Message m)) (encoded tr)).

(** A computation of the looper that started in [w] took out of the
    identifier map only identifiers of messages it logged. *)
Definition removal_logged `{Extern} {A} (w : World) (r : Res A) : Prop :=
  ∃ evs,
    trace (res_world r) = trace w ++ evs
    ∧ ∀ x, x ∈ UintMap w → x ∉ UintMap (res_world r) → x ∈ logged_ids evs.

(** A computation of the looper that started in [w] accepted and
    created at most one message and left the identifier map empty. *)
Definition at_most_one `{Extern} {A} (w : World) (r : Res A) : Prop :=
  ∃ evs,
    trace (res_world r) = trace w ++ evs
    ∧ (length (accepted evs) ≤ 1)%nat
    ∧ (length (created evs) ≤ 1)%nat
    ∧ UintMap (res_world r) = ∅.

(** ** The rest of [NewReceiver] *)

(** The filter a flag name stands for in the callback of [flag.Visit]
    (lines 93-98). *)
Definition filter_of_flag (name : string) : option Filter :=
  if String.eqb name "unique" then Some UniqueFilter
  else if String.eqb name "filterid" then Some MeterIDFilter
  else if String.eqb name "filtertype" then Some MeterTypeFilter
  else None.

Definition flag_of_filter (f : Filter) : string :=
  match f with
  | UniqueFilter => "unique"
  | MeterIDFilter => "filterid"
  | MeterTypeFilter => "filtertype"
  end.

(** The three booleans the callback of [flag.Visit] sets (lines 82-92). *)
Record TunerFlags := mkTunerFlags {
  centerfreqFlagSet : bool;
  sampleRateFlagSet : bool;
  gainFlagSet : bool
}.

Definition visit_tuner_flag (v : TunerFlags) (name : string) : TunerFlags :=
  if String.eqb name "centerfreq"
  then mkTunerFlags true (sampleRateFlagSet v) (gainFlagSet v)
  else if String.eqb name "samplerate"
  then mkTunerFlags (centerfreqFlagSet v) true (gainFlagSet v)
  else if String.eqb name "gainbyindex" || String.eqb name "tunergainmode"
          || String.eqb name "tunergain" || String.eqb name "agcmode"
  then mkTunerFlags (centerfreqFlagSet v) (sampleRateFlagSet v) true
  else v.

(** The commands lines 102-114 send to the tuner. *)
Inductive TunerCmd :=
| SetCenterFreq (f : Z)
| SetSampleRate (r : Z)
| SetGainMode (auto : bool).

(** Lines 102-114.  [flag_centerfreq] is the value of
    [uint32(rcvr.Flags.CenterFreq)]; the parser's sample rate goes
    through [uint32]. *)
Definition tuner_commands {D} (names : list string) (flag_centerfreq : Z) (p : Parser D)
    : list TunerCmd :=
  let v := fold_left visit_tuner_flag names (mkTunerFlags false false false) in
  [SetCenterFreq (if centerfreqFlagSet v then flag_centerfreq else CenterFreq (Cfg p))]
  ++ (if sampleRateFlagSet v then [] else [SetSampleRate (SampleRate (Cfg p) mod 2 ^ 32)])
  ++ (if gainFlagSet v then [] else [SetGainMode true]).

(** The flag names that switch the automatic gain off (line 91). *)
Definition gain_flags : list string :=
  ["gainbyindex"; "tunergainmode"; "tunergain"; "agcmode"]%string.

(** ** The stream in a pipe *)




(** ** Concrete collaborators, for the examples *)

Module Demo.

(** Modelled from the spec: [parse.FilterChain] and its three filters
    are not in recv.go.  The unique filter passes an identifier the
    first time only, the identifier filter passes the members of the
    identifier map, the type filter the members of a configured set;
    [Match] evaluates every filter and is their conjunction, so an
    empty chain accepts every packet. *)
Record ChainState := mkChain { seen : gset N; types : gset N }.

Definition filter_eval (f : Filter) (ids : gset N) (st : ChainState) (pkt : Packet)
    : bool * ChainState :=
  match f with
  | UniqueFilter =>
      (negb (bool_decide (MeterID pkt ∈ seen st)),
       mkChain (seen st ∪ {[MeterID pkt]}) (types st))
  | MeterIDFilter => (bool_decide (MeterID pkt ∈ ids), st)
  | MeterTypeFilter => (bool_decide (MeterType pkt ∈ types st), st)
  end.

Fixpoint chain_Match (fc : list Filter) (ids : gset N) (st : ChainState) (pkt : Packet)
    : bool * ChainState :=
  match fc with
  | [] => (true, st)
  | f :: rest =>
      let '(b, st1) := filter_eval f ids st pkt in
      let '(b', st2) := chain_Match rest ids st1 pkt in
      (b && b', st2)
  end.

(** ASCII lower-casing. *)
Definition lower_ascii (c : Ascii.ascii) : Ascii.ascii :=
  let n := Ascii.nat_of_ascii c in
  if ((65 <=? n) && (n <=? 90))%nat then Ascii.ascii_of_nat (n + 32) else c.

Fixpoint lower (s : string) : string :=
  match s with
  | EmptyString => EmptyString
  | String c rest => String (lower_ascii c) (lower rest)
  end.

(** A toy parser: the decoder keeps the last block as its [IQ] window
    and every non-zero byte of it is a packet carrying that identifier. *)
Definition toy_packets (window : bytes) : list Packet :=
  omap (fun b => match Byte.to_N b with
                 | 0%N => None
                 | n => Some (mkPacket n 7 "toy")
                 end) window.

Definition toy_parser (sl dc : Z) : Parser bytes :=
  mkParser bytes (mkCfg 4 2 912600155 2359296) []
           (fun _ block => (block, []))
           (fun d _ => (d, toy_packets d))
           (fun d => d).

#[export] Instance demo : Extern := {|
  DecState := bytes;
  FcState := ChainState;
  EncState := unit;
  Match := chain_Match;
  ToLower := lower;
  scm_NewParser := toy_parser;
  idm_NewParser := toy_parser;
  r900_NewParser := toy_parser
|}.

(** Three encoders: one that ends each record with a new line, the XML
    one that does not, and a binary one that does not either. *)
Definition plain_Encoder : Encoder unit :=
  mkEncoder unit (OtherEncoder "PlainEncoder")
            (fun _ m => (tt, ("{msg}" ++ newline)%string, None)).
Definition xml_Encoder : Encoder unit :=
  mkEncoder unit XmlEncoder (fun _ m => (tt, "<LogMessage/>", None)).
Definition gob_Encoder : Encoder unit :=
  mkEncoder unit (OtherEncoder "gob.Encoder") (fun _ m => (tt, "gob", None)).
Definition broken_Encoder : Encoder unit :=
  mkEncoder unit (OtherEncoder "PlainEncoder")
            (fun _ m => (tt, "", Some "disk full")).

Definition flags (mt : string) (sgl : bool) (file : string) (enc : Encoder unit)
    (vis : list string) : Flags :=
  mkFlags mt 72 1 true 0 sgl file enc vis.

Definition world0 (ids : gset N) : World :=
  mkWorld ids (mkChain ∅ ∅) tt "" [] (fun k => 1000 + Z.of_nat k) 0%nat [].

Definition quiet_stim : Stimulus := mkStim false false false None.
Definition sigint_stim : Stimulus := mkStim true false false None.

Definition block (a b c d : Byte.byte) : bytes := [a; b; c; d].

Definition toy : Parser DecState := toy_parser 72 1.

(** The receivers [NewReceiver] builds for "scm" and for "scm+idm". *)
Definition rcvr1 (fc : list Filter) : Receiver :=
  mkReceiver (toy_parser 72 1) None fc.

Definition feed (bs : bytes) : Action := ActSplitter (SrcData bs).
Definition pass (i : nat) : Action := ActLooper i quiet_stim.

End Demo.

(** * Properties *)

Section Properties.
Context `{Extern}.

Lemma loop_facts_cons p w w1 w' msg msgs :
  sampleFile w1 = sampleFile w → clock w1 = clock w → ticks w1 = S (ticks w) →
  UintMap w1 ⊆ UintMap w →
  Time msg = clock w (ticks w) →
  Offset msg = Z.of_nat (length (sampleFile w)) →
  Length msg = shl1 (BufferLength (Cfg p)) →
  loop_facts p w1 w' msgs → loop_facts p w w' (msg :: msgs).
Proof.
  intros Hsf Hck Htk Hsub Ht Ho Hl (F1 & F2 & F3 & F4 & F5 & F6).
  rewrite Hsf, Hck, Htk in *.
  split; [done|]. split; [done|]. split; [simpl; lia|].
  split; [simpl; by rewrite Ht, F4|].
  split; [by constructor|set_solver].
Qed.

Lemma loop_post_ret fl p w found : loop_post fl p w found (Ok found w).
Proof.
  exists []. unfold loop_facts. simpl.
  rewrite Nat.add_0_r, app_nil_r, orb_false_r. repeat split; try done.
  set_solver.
Qed.

Lemma loop_post_step fl p w w1 found msg r :
  sampleFile w1 = sampleFile w → clock w1 = clock w → ticks w1 = S (ticks w) →
  UintMap w1 ⊆ UintMap w →
  (single fl = true → MeterID (Message msg) ∉ UintMap w1) →
  (single fl = false → UintMap w1 = UintMap w) →
  trace w1 = trace w ++ record_events (is_xml_Encoder (encoder fl)) msg →
  Time msg = clock w (ticks w) →
  Offset msg = Z.of_nat (length (sampleFile w)) →
  Length msg = shl1 (BufferLength (Cfg p)) →
  loop_post fl p w1 true r → loop_post fl p w found r.
Proof.
  intros Hsf Hck Htk Hsub Hdel Hkeep Htr Ht Ho Hl.
  destruct r as [found' w'|w']; simpl.
  - intros (msgs & HF & Htr' & Hf & Hs & Hns).
    exists (msg :: msgs). split; [by eapply loop_facts_cons|].
    split; [|split; [|split]].
    + rewrite Htr', Htr. cbn [flat_map]. by rewrite <- !app_assoc.
    + rewrite Hf. simpl. by rewrite orb_true_r.
    + intros Hsg m [->|Hm]%elem_of_cons; [|by apply Hs].
      destruct HF as (_ & _ & _ & _ & _ & Hsub'). specialize (Hdel Hsg). set_solver.
    + intros Hsg. rewrite (Hns Hsg). by apply Hkeep.
  - intros (msgs & m & e & HF & Htr').
    exists (msg :: msgs), m, e. split; [by eapply (loop_facts_cons _ _ _ _ _ (msgs ++ [m]))|].
    rewrite Htr', Htr. cbn [flat_map]. by rewrite <- !app_assoc.
Qed.

Lemma range_packets_post fl fc p pkts :
  ∀ found w, loop_post fl p w found (range_packets fl fc p pkts found w).
Proof.
  induction pkts as [|pkt rest IH]; intros found w.
  - apply loop_post_ret.
  - simpl. unfold bind at 1. unfold fc_Match.
    destruct (Match fc (UintMap w) (fcst w) pkt) as [ok s] eqn:HM.
    destruct ok; simpl.
    + unfold bind at 1. unfold new_LogMessage, bind, time_Now, sampleFile_Seek_cur, ret, encoder_Encode. simpl.
      set (msg := mkMsg _ _ _ _).
      destruct (Encode (encoder fl) (encst w) msg) as [[s' out'] err] eqn:HE.
      destruct err as [e|]; simpl.
      * exists [], msg, e. split; [|by rewrite <- !app_assoc].
        unfold loop_facts; simpl. repeat split; try done; try lia.
        repeat constructor.
      * set (xml := is_xml_Encoder (encoder fl)).
        assert (Hstep : ∀ w1 r,
                  UintMap w1 ⊆ UintMap w →
                  sampleFile w1 = sampleFile w → clock w1 = clock w →
                  ticks w1 = S (ticks w) →
                  trace w1 = trace w ++ record_events xml msg →
                  (single fl = true → MeterID pkt ∉ UintMap w1) →
                  (single fl = false → UintMap w1 = UintMap w) →
                  loop_post fl p w1 true r → loop_post fl p w found r).
        { intros w1 r ? ? ? ? ? ? ? ?. by eapply (loop_post_step fl p w w1 found msg). }
        set (w0 := emit _ (EvEncode msg)).
        set (w1 := if xml then emit (log_append w0 newline) EvNewline else w0).
        assert (Hnl : (if xml then Fprintln_logFile else λ w2 : World, Ok () w2) w0
                      = Ok () w1) by (subst w1; by destruct xml).
        rewrite Hnl.
        assert (Hw1 : UintMap w1 = UintMap w ∧ sampleFile w1 = sampleFile w
                      ∧ clock w1 = clock w ∧ ticks w1 = S (ticks w)
                      ∧ trace w1 = trace w ++ record_events xml msg).
        { subst w1 w0. unfold record_events. destruct xml; simpl;
            repeat split; try done; by rewrite <- !app_assoc. }
        destruct Hw1 as (Hu & Hsf & Hck & Htk & Htr).
        destruct (single fl) eqn:Hs.
        -- unfold len_UintMap. cbn beta.
           destruct (size (UintMap w1) =? 0)%nat eqn:Hz.
           ++ apply Nat.eqb_eq, size_empty_iff in Hz.
              apply (Hstep w1 _); [set_solver|done|done|done|done| |congruence|apply loop_post_ret].
              intros _. set_solver.
           ++ unfold delete_UintMap.
              apply (Hstep (set_UintMap w1 (UintMap w1 ∖ {[MeterID pkt]})) _);
                [simpl; set_solver|done|done|done|done|simpl; set_solver|congruence|apply IH].
        -- apply (Hstep w1 _); [set_solver|done|done|done|done|congruence|by intros _|apply IH].
    + apply (IH found (set_fcst w s)).
Qed.

Ltac split_all Hok :=
  repeat match goal with
         | |- loop_ok _ _ _ _ ∧ _ => split; [exact Hok|]
         | |- _ ∧ _ => split; [done|]
         end.

Lemma looper_body_post fl fc p d block st w :
  body_post fl p (Parse p (Decode p d block).1 (Decode p d block).2).1 st w
            (looper_body fl fc p d (ReadOk block) st w).
Proof.
  unfold looper_body.
  destruct (Decode p d block) as [d1 indices]. simpl.
  destruct (Parse p d1 indices) as [d2 pkts]. simpl.
  unfold bind at 1.
  pose proof (range_packets_post fl fc p pkts false w) as HP.
  destruct (range_packets fl fc p pkts false w) as [found w1|w1]; simpl in HP.
  - destruct HP as (msgs & HF & Htr & Hf & Hs & Hns).
    exists w1, msgs. split; [done|].
    assert (Hok : loop_ok fl w w1 msgs) by done.
    simpl in Hf. subst found. unfold captures.
    destruct (bool_decide (msgs = [])); simpl.
    + unfold ret. by split_all Hok.
    + destruct (bool_decide (sampleFilename fl ≠ DevNull)); simpl.
      * unfold bind, sampleFile_Write, len_UintMap, ret, log_Fatal.
        destruct (write_error st) as [[n e]|] eqn:Hwe; simpl.
        -- right. by exists n, e.
        -- destruct (single fl); simpl; [destruct (size (UintMap w1) =? 0)%nat|];
             by split_all Hok.
      * unfold bind, len_UintMap, ret. simpl.
        destruct (single fl); simpl; [destruct (size (UintMap w1) =? 0)%nat|];
          by split_all Hok.
  - destruct HP as (ms & m & e & HF & Htr).
    exists w1, (ms ++ [m]). split; [done|].
    left. by exists ms, m, e.
Qed.

Lemma created_records xml msgs : created (flat_map (record_events xml) msgs) = msgs.
Proof. induction msgs as [|m msgs IH]; [done|]. destruct xml; simpl; by rewrite IH. Qed.

Lemma encoded_records xml msgs : encoded (flat_map (record_events xml) msgs) = msgs.
Proof. induction msgs as [|m msgs IH]; [done|]. destruct xml; simpl; by rewrite IH. Qed.

Lemma accepted_records xml msgs :
  accepted (flat_map (record_events xml) msgs) = map Message msgs.
Proof. induction msgs as [|m msgs IH]; [done|]. destruct xml; simpl; by rewrite IH. Qed.

Lemma sample_writes_records xml msgs :
  sample_writes (flat_map (record_events xml) msgs) = [].
Proof. induction msgs as [|m msgs IH]; [done|]. destruct xml; simpl; by rewrite IH. Qed.

Lemma newlines_records xml msgs :
  newlines (flat_map (record_events xml) msgs) = if xml then length msgs else 0%nat.
Proof.
  unfold newlines. destruct xml; induction msgs as [|m msgs IH]; simpl; auto.
Qed.

Lemma created_app tr1 tr2 : created (tr1 ++ tr2) = created tr1 ++ created tr2.
Proof. apply omap_app. Qed.
Lemma encoded_app tr1 tr2 : encoded (tr1 ++ tr2) = encoded tr1 ++ encoded tr2.
Proof. apply omap_app. Qed.
Lemma accepted_app tr1 tr2 : accepted (tr1 ++ tr2) = accepted tr1 ++ accepted tr2.
Proof. apply omap_app. Qed.
Lemma sample_writes_app tr1 tr2 :
  sample_writes (tr1 ++ tr2) = sample_writes tr1 ++ sample_writes tr2.
Proof. apply omap_app. Qed.

(** The events of one pass over a block: the records of the packet
    loop, the encode that failed if one did, and what follows the
    loop. *)
Lemma looper_body_trace fl fc p d rd st w :
  ∃ msgs failed tail all w1 written,
    trace (res_world (looper_body fl fc p d rd st w))
      = trace w ++ (flat_map (record_events (is_xml_Encoder (encoder fl))) msgs ++ failed) ++ tail
    ∧ sampleFile (res_world (looper_body fl fc p d rd st w)) = sampleFile w ++ written
    ∧ loop_facts p w w1 all
    ∧ ((failed = [] ∧ all = msgs)
       ∨ ∃ m e, failed = [EvAccept (Message m); EvEncodeFailed m e]
                ∧ tail = [EvFatal ("Error encoding message: " ++ e)]
                ∧ all = msgs ++ [m])
    ∧ tail_shape fl msgs failed tail written (res_exit (looper_body fl fc p d rd st w)).
Proof.
  unfold tail_shape. destruct rd as [block|e].
  2:{ exists [], [], [EvFatal ("Error reading samples: " ++ e)], [], w, []. simpl.
      rewrite app_nil_r.
      split; [done|]. split; [done|]. split; [|split; [by left|right; left; by eexists]].
      unfold loop_facts. simpl. rewrite Nat.add_0_r. by repeat split. }
  destruct (looper_body_post fl fc p d block st w) as (w1 & msgs & HF & HR).
  pose proof HF as (Hsf & _).
  destruct (looper_body fl fc p d (ReadOk block) st w) as [[d' ctl] w'|w']; simpl.
  - destruct HR as (-> & (Htr & _ & _) & Hwe & -> & _).
    unfold captures in *.
    destruct (bool_decide_reflect (msgs = [])) as [->|Hne]; simpl in *.
    + exists [], [], [], [], w1, []. rewrite Htr, Hsf, !app_nil_r. simpl.
      split; [done|]. split; [done|]. split; [done|]. split; by left.
    + destruct (bool_decide_reflect (sampleFilename fl ≠ DevNull)) as [Hcap|Hcap]; simpl.
      * eexists msgs, [], [EvSampleWrite _], msgs, w1, _.
        rewrite Htr, Hsf, app_nil_r, <- !app_assoc. split; [done|]. split; [done|]. split; [done|].
        split; [by left|]. right; right. eexists. repeat split; try done. by left.
      * exists msgs, [], [], msgs, w1, []. rewrite Htr, Hsf, !app_nil_r. split; [done|].
        split; [done|]. split; [done|]. split; by left.
  - destruct HR as [(ms & m & e & -> & -> & Htr)|(n & e & (Htr & _ & _) & Hcap & Hwe & ->)].
    + exists ms, [EvAccept (Message m); EvEncodeFailed m e],
        [EvFatal ("Error encoding message: " ++ e)], (ms ++ [m]), w1, [].
      rewrite Htr, Hsf, app_nil_r, <- !app_assoc. split; [done|]. split; [done|]. split; [done|].
      split; [right; by exists m, e|right; left; by eexists].
    + unfold captures in Hcap. apply andb_true_iff in Hcap as [Hne Hcap].
      apply negb_true_iff, bool_decide_eq_false in Hne. apply bool_decide_eq_true in Hcap.
      eexists msgs, [], [_; _], msgs, w1, _. simpl. rewrite Htr, Hsf, app_nil_r, <- !app_assoc.
      split; [done|]. split; [done|]. split; [done|]. split; [by left|].
      right; right. eexists. repeat split; try done. right. by eexists _, _.
Qed.


(** C8.  In one pass over a block the capture file is written only when
    the filter chain accepted a packet of the block and the sample file
    name is not [os.DevNull]; with no accepted packet, or with the
    discard target, the file is left as it was. *)
Theorem C8_capture_only_when_accepted fl fc p d rd st w :
  ∃ evs,
    trace (res_world (looper_body fl fc p d rd st w)) = trace w ++ evs
    ∧ (sample_writes evs ≠ [] → accepted evs ≠ [] ∧ sampleFilename fl ≠ DevNull)
    ∧ (sampleFile (res_world (looper_body fl fc p d rd st w)) ≠ sampleFile w →
         accepted evs ≠ [] ∧ sampleFilename fl ≠ DevNull)
    ∧ (accepted evs = [] ∨ sampleFilename fl = DevNull →
         sample_writes evs = []
         ∧ sampleFile (res_world (looper_body fl fc p d rd st w)) = sampleFile w).
Proof.
  destruct (looper_body_trace fl fc p d rd st w)
    as (msgs & failed & tail & all & w1 & written & Htr & Hsf & HF & Hfail & Htail).
  eexists. split; [exact Htr|].
  rewrite Hsf, !sample_writes_app, !accepted_app, sample_writes_records, accepted_records.
  assert (Hfw : sample_writes failed = []).
  { by destruct Hfail as [[-> _]|(m & e & -> & _)]. }
  rewrite Hfw. simpl.
  destruct Htail as [(-> & -> & _)|[(s & -> & -> & _)|(iq & Hne & -> & Hcap & Hw)]].
  - rewrite !app_nil_r. repeat split; try done.
  - rewrite !app_nil_r. repeat split; try done.
  - assert (Hacc : (map Message msgs ++ accepted []) ++ accepted tail ≠ []).
    { destruct msgs; [done|]. simpl. done. }
    split; [by intros _|]. split; [by intros _|].
    intros [Hno|Hdev]; [by destruct Hacc|by destruct Hcap].
Qed.

(** C5, as the code has it.  A message is built from the clock reading
    taken at that moment, the length of the capture file at that moment
    and twice the parser's buffer length (as a Go int); and in one pass
    over a block the messages handed to [Encode] are those of the
    accepted packets, in order, the k-th with the k-th clock reading of
    the pass, all with the length the capture file had when the pass
    began. *)
Theorem C5_log_message_fields fl fc p d rd st w :
  (∀ pkt w0,
      new_LogMessage p pkt w0
      = Ok (mkMsg (clock w0 (ticks w0)) (Z.of_nat (length (sampleFile w0)))
                  (shl1 (BufferLength (Cfg p))) pkt) (tick w0))
  ∧ ∃ evs,
      trace (res_world (looper_body fl fc p d rd st w)) = trace w ++ evs
      ∧ map Message (created evs) = accepted evs
      ∧ map Time (created evs) = map (clock w) (seq (ticks w) (length (created evs)))
      ∧ Forall (fun m => Offset m = Z.of_nat (length (sampleFile w))
                         ∧ Length m = shl1 (BufferLength (Cfg p))) (created evs).
Proof.
  split; [done|].
  destruct (looper_body_trace fl fc p d rd st w)
    as (msgs & failed & tail & all & w1 & written & Htr & _ & HF & Hfail & Htail).
  eexists. split; [exact Htr|].
  assert (Htl : accepted tail = [] ∧ created tail = []).
  { by destruct Htail as [[-> _]|[(s & -> & _)|(iq & _ & _ & _ & [[-> _]|(e & n & -> & _)])]]. }
  destruct Htl as [Ha Hc].
  rewrite !created_app, !accepted_app, created_records, accepted_records, Ha, Hc, !app_nil_r.
  assert (Hall : msgs ++ created failed = all ∧ accepted failed = map Message (created failed)).
  { destruct Hfail as [[-> ->]|(m & e & -> & _ & ->)]; [by rewrite app_nil_r|done]. }
  destruct Hall as [Hall Hacc]. rewrite Hall, Hacc, <- map_app, Hall.
  destruct HF as (_ & _ & _ & Htime & Hforall & _). done.
Qed.

(** C4, as the code has it.  In one pass over a block every successful
    [Encode] is followed at once by a new line on the log file when the
    encoder is the XML encoder, and by nothing when it is any other
    encoder: the events of the pass are the records, each with or
    without its new line according to the type test alone, and no
    encode or new line occurs outside them. *)
Theorem C4_newline_iff_xml_encoder fl fc p d rd st w :
  ∃ msgs rest,
    trace (res_world (looper_body fl fc p d rd st w))
      = trace w ++ flat_map (record_events (is_xml_Encoder (encoder fl))) msgs ++ rest
    ∧ encoded rest = [] ∧ newlines rest = 0%nat
    ∧ newlines (flat_map (record_events (is_xml_Encoder (encoder fl))) msgs ++ rest)
      = (if is_xml_Encoder (encoder fl) then length msgs else 0%nat).
Proof.
  destruct (looper_body_trace fl fc p d rd st w)
    as (msgs & failed & tail & all & w1 & written & Htr & _ & HF & Hfail & Htail).
  exists msgs, (failed ++ tail). rewrite Htr, <- !app_assoc. split; [done|].
  assert (Hr : encoded (failed ++ tail) = [] ∧ newlines (failed ++ tail) = 0%nat).
  { destruct Hfail as [[-> _]|(m & e & -> & -> & _)]; [|done].
    by destruct Htail as [[-> _]|[(s & -> & _)|(iq & _ & _ & _ & [[-> _]|(e & n & -> & _)])]]. }
  destruct Hr as [He Hn]. do 2 (split; [done|]).
  unfold newlines in *. rewrite omap_app, length_app, Hn, Nat.add_0_r.
  apply newlines_records.
Qed.

Lemma set_status_same t : set_status t (t_status t) = t.
Proof. by destruct t. Qed.

(** The four ways a scheduling step of a looper can go: nothing happens
    to the world; the set-up panics; the time limit is reported; a
    block (or a read error) goes through the body. *)
Lemma looper_step_view fl fc t0 t c st w :
  let r := looper_step fl fc t0 t c st w in
  (∃ s', r = mkLS (set_status t s') c w false)
  ∨ (t_status t = Starting
     ∧ r = mkLS (set_status t (Stopped FatalError)) c
                (emit w (EvFatal "panic: makeslice: len out of range")) true)
  ∨ (r = mkLS (set_status t (Stopped DeadlineReached)) c
              (emit (tick w) (EvTimeLimit (clock w (ticks w) - t0))) false)
  ∨ (∃ rd c',
       (t_status t = InReadFull ∨ (t_status t = AtSelect ∧ select_case fl st = SelDefault))
       ∧ conduit_ReadFull c (Z.to_nat (BlockSize2 (Cfg (t_parser t)))) = Some (rd, c')
       ∧ r = step_of_body t c' (looper_body fl fc (t_parser t) (t_dec t) rd st w)).
Proof.
  assert (Hread : ∀ r, r = looper_read fl fc t c st w →
            (t_status t = InReadFull ∨ (t_status t = AtSelect ∧ select_case fl st = SelDefault)) →
            (∃ s', r = mkLS (set_status t s') c w false)
            ∨ (∃ rd c',
                 (t_status t = InReadFull
                  ∨ (t_status t = AtSelect ∧ select_case fl st = SelDefault))
                 ∧ conduit_ReadFull c (Z.to_nat (BlockSize2 (Cfg (t_parser t)))) = Some (rd, c')
                 ∧ r = step_of_body t c' (looper_body fl fc (t_parser t) (t_dec t) rd st w))).
  { intros r -> Hst. unfold looper_read.
    destruct (conduit_ReadFull c _) as [[rd c']|] eqn:Hrd; [|left; by eexists].
    right. exists rd, c'. split; [done|]. split; [done|].
    unfold step_of_body. by destruct (looper_body _ _ _ _ _ _ _) as [[d []]|]. }
  unfold looper_step. simpl.
  destruct (t_status t) as [| | |r0] eqn:Hst.
  - destruct (BlockSize2 (Cfg (t_parser t)) <? 0); [right; left; by split|left; by eexists].
  - destruct (select_case fl st) eqn:Hsel.
    + left. by eexists.
    + right; right; left. done.
    + destruct (Hread _ eq_refl) as [?|?]; [by right| by left|].
      right; right; right. done.
  - destruct (Hread _ eq_refl) as [?|?]; [by left| by left|].
    right; right; right. done.
  - left. exists (Stopped r0). by rewrite <- Hst, set_status_same.
Qed.

(** A looper neither writes to nor closes its pipe, and keeps its parser. *)
Lemma looper_step_frame fl fc t0 t c st w :
  let r := looper_step fl fc t0 t c st w in
  cwrites (ls_conduit r) = cwrites c ∧ cclosed (ls_conduit r) = cclosed c
  ∧ t_parser (ls_task r) = t_parser t ∧ t_in (ls_task r) = t_in t.
Proof.
  assert (Hrd : ∀ rd c', conduit_ReadFull c (Z.to_nat (BlockSize2 (Cfg (t_parser t))))
                         = Some (rd, c') →
                         cwrites c' = cwrites c ∧ cclosed c' = cclosed c).
  { unfold conduit_ReadFull. intros rd c'.
    destruct (_ <=? _)%nat; [by intros [= _ <-]|].
    destruct (cclosed c) eqn:Hc; [by intros [= _ <-]|done]. }
  destruct (looper_step_view fl fc t0 t c st w)
    as [[s' ->]|[[_ ->]|[->|(rd & c' & _ & Hr & ->)]]]; simpl; try done.
  destruct (Hrd _ _ Hr) as [? ?].
  unfold step_of_body. by destruct (looper_body _ _ _ _ _ _ _) as [[d []]|].
Qed.

(** Nothing happens after [os.Exit]. *)
Lemma sys_run_exited fl rcvr s sched :
  exited s = true → sys_run fl rcvr s sched = s.
Proof.
  intros He. induction sched as [|a sched IH]; [done|].
  unfold sys_run in *. simpl.
  assert (Hs : sys_step fl rcvr s a = s) by (unfold sys_step; by rewrite He).
  by rewrite Hs.
Qed.

(** No step of the process touches the WaitGroup counter. *)
Lemma sys_step_wg fl rcvr s a : wg (sys_step fl rcvr s a) = wg s.
Proof.
  unfold sys_step. destruct (exited s || main_returned s); [done|].
  destruct a as [r|i st|].
  - unfold splitter_step. destruct (splitter_running s); [by destruct r|done].
  - by destruct (loopers s !! i).
  - unfold wg_Wait. by destruct (wg s =? 0).
Qed.

Lemma sys_step_main fl rcvr s a :
  wg s ≠ 0 → main_returned (sys_step fl rcvr s a) = main_returned s.
Proof.
  intros Hwg. unfold sys_step. destruct (exited s || main_returned s); [done|].
  destruct a as [r|i st|].
  - unfold splitter_step. destruct (splitter_running s); [by destruct r|done].
  - by destruct (loopers s !! i).
  - unfold wg_Wait. destruct (Z.eqb_spec (wg s) 0); done.
Qed.

Lemma Run_wg rcvr w : 1 ≤ wg (Run rcvr w).
Proof. unfold Run. destruct (rcvr_q rcvr); simpl; lia. Qed.

(** [Run] never gets past [wg.Wait()]: the counter raised by [wg.Add]
    is never lowered, no looper calls [wg.Done]. *)
Lemma Run_never_returns fl rcvr w sched :
  main_returned (sys_run fl rcvr (Run rcvr w) sched) = false
  ∧ 1 ≤ wg (sys_run fl rcvr (Run rcvr w) sched).
Proof.
  assert (Hgen : ∀ s, main_returned s = false → 1 ≤ wg s →
                      main_returned (sys_run fl rcvr s sched) = false
                      ∧ 1 ≤ wg (sys_run fl rcvr s sched)).
  { induction sched as [|a sched IH]; intros s Hm Hw; [done|].
    simpl. apply IH; [rewrite sys_step_main; [done|lia]|by rewrite sys_step_wg]. }
  apply Hgen; [|apply Run_wg]. unfold Run. by destruct (rcvr_q rcvr).
Qed.

(** No step of the process closes a pipe. *)
Lemma sys_step_closed fl rcvr s a :
  cclosed (out (sys_step fl rcvr s a)) = cclosed (out s)
  ∧ cclosed (out2 (sys_step fl rcvr s a)) = cclosed (out2 s).
Proof.
  unfold sys_step. destruct (exited s || main_returned s); [done|].
  destruct a as [r|i st|].
  - unfold splitter_step. destruct (splitter_running s); [|done].
    destruct r; [|done]. simpl. unfold conduit_Write.
    destruct (rcvr_q rcvr), (cclosed (out s)) eqn:E1, (cclosed (out2 s)) eqn:E2;
      simpl; by rewrite ?E1, ?E2.
  - destruct (loopers s !! i) as [t|]; [|done].
    pose proof (looper_step_frame fl (rcvr_fc rcvr) (start s) t (conduit_of s (t_in t)) st (world s))
      as (_ & Hc & _).
    unfold put_looper. destruct (t_in t); simpl in *; by rewrite ?Hc.
  - unfold wg_Wait. by destruct (wg s =? 0).
Qed.

Lemma Run_pipes_stay_open fl rcvr w sched :
  cclosed (out (sys_run fl rcvr (Run rcvr w) sched)) = false
  ∧ cclosed (out2 (sys_run fl rcvr (Run rcvr w) sched)) = false.
Proof.
  assert (Hgen : ∀ s, cclosed (out s) = false → cclosed (out2 s) = false →
                      cclosed (out (sys_run fl rcvr s sched)) = false
                      ∧ cclosed (out2 (sys_run fl rcvr s sched)) = false).
  { induction sched as [|a sched IH]; intros s H1 H2; [done|].
    simpl. destruct (sys_step_closed fl rcvr s a) as [E1 E2].
    apply IH; congruence. }
  apply Hgen; unfold Run; by destruct (rcvr_q rcvr).
Qed.

(** With no second parser nothing is written to the second pipe and no
    looper is added. *)
Lemma sys_step_single fl rcvr s a :
  rcvr_q rcvr = None →
  cwrites (out2 (sys_step fl rcvr s a)) = cwrites (out2 s)
  ∧ length (loopers (sys_step fl rcvr s a)) = length (loopers s).
Proof.
  intros Hq. unfold sys_step. destruct (exited s || main_returned s); [done|].
  destruct a as [r|i st|].
  - unfold splitter_step. destruct (splitter_running s); [|done].
    destruct r; [|done]. simpl. by rewrite Hq.
  - destruct (loopers s !! i) as [t|]; [|done].
    pose proof (looper_step_frame fl (rcvr_fc rcvr) (start s) t (conduit_of s (t_in t)) st (world s))
      as (Hc & _).
    unfold put_looper. cbn [loopers out2]. rewrite length_insert.
    destruct (t_in t); simpl in *; by rewrite ?Hc.
  - unfold wg_Wait. by destruct (wg s =? 0).
Qed.

(** [NewReceiver] leaves [q] nil unless the message type is the
    combined one. *)
Lemma NewReceiver_q fl ce rcvr :
  NewReceiver fl ce = inr rcvr →
  ToLower (msgType fl) ≠ "scm+idm"%string →
  rcvr_q rcvr = None.
Proof.
  unfold NewReceiver. intros Hnew Hne.
  destruct (String.eqb_spec (ToLower (msgType fl)) "scm");
    [|destruct (String.eqb_spec (ToLower (msgType fl)) "idm");
      [|destruct (String.eqb_spec (ToLower (msgType fl)) "scm+idm");
        [done|destruct (String.eqb_spec (ToLower (msgType fl)) "r900"); [|done]]]];
    destruct ce; by inversion Hnew.
Qed.

(** C9.  When [NewReceiver] succeeds on a message type other than the
    combined "scm+idm", [Run] starts exactly one looper, and through
    any execution no further looper appears and no [Write] reaches the
    second pipe. *)
Theorem C9_single_protocol_one_pipeline fl ce rcvr w :
  NewReceiver fl ce = inr rcvr →
  ToLower (msgType fl) ≠ "scm+idm"%string →
  length (loopers (Run rcvr w)) = 1%nat
  ∧ ∀ sched,
      length (loopers (sys_run fl rcvr (Run rcvr w) sched)) = 1%nat
      ∧ cwrites (out2 (sys_run fl rcvr (Run rcvr w) sched)) = [].
Proof.
  intros Hnew Hne. pose proof (NewReceiver_q _ _ _ Hnew Hne) as Hq.
  assert (H0 : length (loopers (Run rcvr w)) = 1%nat ∧ cwrites (out2 (Run rcvr w)) = []).
  { unfold Run. by rewrite Hq. }
  split; [apply H0|]. intros sched.
  revert H0. generalize (Run rcvr w). induction sched as [|a sched IH]; intros s [Hl Hw]; [done|].
  simpl. destruct (sys_step_single fl rcvr s a Hq) as [E1 E2].
  apply IH. by rewrite E1, E2.
Qed.


Lemma sys_step_looper fl rcvr s i st t :
  exited s = false → main_returned s = false → loopers s !! i = Some t →
  sys_step fl rcvr s (ActLooper i st)
  = put_looper s i (looper_step fl (rcvr_fc rcvr) (start s) t (conduit_of s (t_in t)) st (world s))
               (t_in t).
Proof. intros He Hm Ht. unfold sys_step. by rewrite He, Hm, Ht. Qed.

Lemma step_of_body_world t c' b :
  ls_world (step_of_body t c' b) = res_world b
  ∧ ls_exit (step_of_body t c' b) = res_exit b.
Proof. by destruct b as [[d []] w'|w']. Qed.

Lemma elem_of_records xml msgs x :
  x ∈ flat_map (record_events xml) msgs →
  (∃ pkt, x = EvAccept pkt) ∨ (∃ m, x = EvEncode m) ∨ x = EvNewline.
Proof.
  induction msgs as [|m msgs IH]; simpl; [by intros ?%elem_of_nil|].
  rewrite !elem_of_cons, elem_of_app.
  intros [->|[->|[Hx|Hx]]]; [left; by eexists|right; left; by eexists| |by apply IH].
  destruct xml; [|by apply elem_of_nil in Hx].
  apply list_elem_of_singleton in Hx as ->. by right; right.
Qed.

(** The events a scheduling step of a looper adds to the trace, with
    the cases that end the process. *)
Lemma looper_step_events fl fc t0 t c st w :
  let r := looper_step fl fc t0 t c st w in
  ∃ evs,
    trace (ls_world r) = trace w ++ evs
    ∧ (∀ m e, EvEncodeFailed m e ∈ evs →
         ls_exit r = true
         ∧ ∃ pre, evs = pre ++ [EvEncodeFailed m e; EvFatal ("Error encoding message: " ++ e)])
    ∧ (∀ bs e, EvSampleWriteFailed bs e ∈ evs →
         ls_exit r = true
         ∧ ∃ pre, evs = pre ++ [EvSampleWriteFailed bs e;
                                EvFatal ("Error writing raw samples to file:" ++ e)]).
Proof.
  destruct (looper_step_view fl fc t0 t c st w)
    as [[s' ->]|[[_ ->]|[->|(rd & c' & _ & Hr & ->)]]]; cbn [ls_world ls_exit trace emit].
  - exists []. rewrite app_nil_r. split; [done|]. split; by intros ? ? ?%elem_of_nil.
  - eexists. split; [done|].
    split; intros ? ? [=]%list_elem_of_singleton.
  - eexists. split; [done|].
    split; intros ? ? [=]%list_elem_of_singleton.
  - destruct (step_of_body_world t c' (looper_body fl fc (t_parser t) (t_dec t) rd st w))
      as [-> ->].
    destruct (looper_body_trace fl fc (t_parser t) (t_dec t) rd st w)
      as (msgs & failed & tail & all & w1 & written & Htr & _ & _ & Hfail & Htail).
    eexists. split; [exact Htr|].
    split.
    + intros m e. rewrite !elem_of_app.
      intros [[Hx|Hx]|Hx].
      * apply elem_of_records in Hx as [[? [=]]|[[? [=]]|[=]]].
      * destruct Hfail as [[-> _]|(m' & e' & -> & -> & _)]; [by apply elem_of_nil in Hx|].
        rewrite !elem_of_cons in Hx. destruct Hx as [[=]|[[= <- <-]|Hx%elem_of_nil]]; [|done].
        destruct Htail as [([=] & _)|[(s & _ & _ & ->)|(iq & _ & [=] & _)]].
        split; [done|].
        exists (flat_map (record_events (is_xml_Encoder (encoder fl))) msgs
                ++ [EvAccept (Message m)]).
        by rewrite <- !app_assoc.
      * destruct Htail as [(-> & _)|[(s & -> & _)|(iq & _ & _ & _ & [(-> & _)|(e' & n & -> & _)])]].
        -- by apply elem_of_nil in Hx.
        -- by apply list_elem_of_singleton in Hx.
        -- by apply list_elem_of_singleton in Hx.
        -- rewrite !elem_of_cons in Hx. by destruct Hx as [[=]|[[=]|Hx%elem_of_nil]].
    + intros bs e. rewrite !elem_of_app.
      intros [[Hx|Hx]|Hx].
      * apply elem_of_records in Hx as [[? [=]]|[[? [=]]|[=]]].
      * destruct Hfail as [[-> _]|(m' & e' & -> & -> & _)]; [by apply elem_of_nil in Hx|].
        rewrite !elem_of_cons in Hx. by destruct Hx as [[=]|[[=]|Hx%elem_of_nil]].
      * destruct Htail as [(-> & _)|[(s & -> & _)|(iq & _ & -> & _ & [(-> & _)|(e' & n & -> & _ & ->)])]].
        -- by apply elem_of_nil in Hx.
        -- by apply list_elem_of_singleton in Hx.
        -- by apply list_elem_of_singleton in Hx.
        -- rewrite !elem_of_cons in Hx. destruct Hx as [[= -> ->]|[[=]|Hx%elem_of_nil]]; [|done].
           split; [done|]. rewrite app_nil_r. by eexists.
Qed.

Lemma looper_step_read_error fl fc t0 t c st w e c' :
  t_status t = InReadFull ∨ (t_status t = AtSelect ∧ select_case fl st = SelDefault) →
  conduit_ReadFull c (Z.to_nat (BlockSize2 (Cfg (t_parser t)))) = Some (ReadErr e, c') →
  looper_step fl fc t0 t c st w
  = mkLS (set_status t (Stopped FatalError)) c'
         (emit w (EvFatal ("Error reading samples: " ++ e))) true.
Proof.
  intros Hst Hrd. unfold looper_step, looper_read.
  destruct Hst as [->|[-> ->]]; by rewrite Hrd.
Qed.

(** C7.  In a scheduling step of a looper: a read of the block that
    ends in an error, an [Encode] that returns an error and a write of
    the samples that returns an error each end in [log.Fatal]: the
    message is the last event, right after the failure, the process has
    exited, and from then on no goroutine does anything.  On a read
    error nothing of the pass has run: the only event is the fatal
    message and the decoder and the files are as before. *)
Theorem C7_fatal_errors_end_the_process fl rcvr s i st t :
  exited s = false → main_returned s = false → loopers s !! i = Some t →
  let s' := sys_step fl rcvr s (ActLooper i st) in
  ∃ evs,
    trace (world s') = trace (world s) ++ evs
    ∧ (∀ e c',
         t_status t = InReadFull ∨ (t_status t = AtSelect ∧ select_case fl st = SelDefault) →
         conduit_ReadFull (conduit_of s (t_in t)) (Z.to_nat (BlockSize2 (Cfg (t_parser t))))
           = Some (ReadErr e, c') →
         exited s' = true
         ∧ evs = [EvFatal ("Error reading samples: " ++ e)]
         ∧ sampleFile (world s') = sampleFile (world s)
         ∧ logFile (world s') = logFile (world s)
         ∧ UintMap (world s') = UintMap (world s)
         ∧ (t_dec <$> loopers s' !! i) = Some (t_dec t))
    ∧ (∀ m e, EvEncodeFailed m e ∈ evs →
         exited s' = true
         ∧ ∃ pre, evs = pre ++ [EvEncodeFailed m e; EvFatal ("Error encoding message: " ++ e)])
    ∧ (∀ bs e, EvSampleWriteFailed bs e ∈ evs →
         exited s' = true
         ∧ ∃ pre, evs = pre ++ [EvSampleWriteFailed bs e;
                                EvFatal ("Error writing raw samples to file:" ++ e)])
    ∧ (exited s' = true → ∀ sched, sys_run fl rcvr s' sched = s').
Proof.
  intros He Hm Ht s'. subst s'. rewrite (sys_step_looper _ _ _ _ _ _ He Hm Ht).
  destruct (looper_step_events fl (rcvr_fc rcvr) (start s) t (conduit_of s (t_in t)) st (world s))
    as (evs & Htr & Henc & Hwr).
  exists evs. split; [done|]. split; [|split; [done|split; [done|]]].
  - intros e c' Hst Hrd.
    rewrite (looper_step_read_error _ _ _ _ _ _ _ _ _ Hst Hrd) in *. simpl in *.
    split; [done|]. split; [by apply app_inv_head in Htr|]. do 3 (split; [done|]).
    rewrite list_lookup_insert_eq; [done|]. by eapply lookup_lt_Some.
  - intros Hex sched. by apply sys_run_exited.
Qed.






(** What a scheduling step of a looper does to the identifier map in
    single-shot mode, when the process survives it: the map shrinks,
    the identifiers of the messages it logged are out of it, and if it
    logged something and the map is now empty the looper has returned. *)
Lemma looper_step_single fl fc t0 t c st w :
  single fl = true →
  let r := looper_step fl fc t0 t c st w in
  ls_exit r = false →
  UintMap (ls_world r) ⊆ UintMap w
  ∧ ∃ msgs,
      encoded (trace (ls_world r)) = encoded (trace w) ++ msgs
      ∧ (∀ m, m ∈ msgs → MeterID (Message m) ∉ UintMap (ls_world r))
      ∧ (msgs ≠ [] → UintMap (ls_world r) = ∅ →
           t_status (ls_task r) = Stopped CompletionSetEmpty).
Proof.
  intros Hsg.
  destruct (looper_step_view fl fc t0 t c st w)
    as [[s' ->]|[[_ ->]|[->|(rd & c' & _ & Hr & ->)]]]; cbn [ls_world ls_exit ls_task].
  - intros _. split; [done|]. exists []. rewrite app_nil_r. split; [done|].
    split; [by intros ? ?%elem_of_nil|done].
  - done.
  - intros _. split; [done|]. exists []. simpl. rewrite encoded_app, app_nil_r. simpl.
    rewrite app_nil_r. split; [done|]. split; [by intros ? ?%elem_of_nil|done].
  - destruct rd as [block|e]; [|done].
    pose proof (looper_body_post fl fc (t_parser t) (t_dec t) block st w)
      as (w1 & msgs & HF & HR).
    destruct (looper_body fl fc (t_parser t) (t_dec t) (ReadOk block) st w)
      as [[d' ctl] w'|w']; [|done].
    destruct HR as (_ & (Htr & Hids & _) & _ & Hw' & Hctl).
    destruct HF as (_ & _ & _ & _ & _ & Hsub).
    assert (HU : UintMap w' = UintMap w1) by (subst w'; by destruct (captures fl msgs)).
    assert (HE : encoded (trace w') = encoded (trace w) ++ msgs).
    { subst w'. destruct (captures fl msgs); simpl; rewrite Htr, ?encoded_app, encoded_records;
        simpl; by rewrite ?app_nil_r. }
    assert (HW : ls_world (step_of_body t c' (Ok (d', ctl) w')) = w') by by destruct ctl.
    rewrite HW. intros _. rewrite HU. split; [done|].
    exists msgs. split; [done|]. split; [by apply Hids|].
    intros Hne Hempty. rewrite Hempty, Hsg in Hctl.
    destruct (bool_decide_reflect (msgs = [])); [done|]. simpl in Hctl. by subst ctl.
Qed.

Lemma sys_step_single_inv fl rcvr U0 s a :
  single fl = true → single_inv U0 s → single_inv U0 (sys_step fl rcvr s a).
Proof.
  intros Hsg Hinv. unfold sys_step.
  destruct (exited s) eqn:He; [done|].
  destruct (Hinv He) as [Hsub Hout].
  destruct (main_returned s) eqn:Hm; simpl; [done|].
  destruct a as [r|i st|].
  - unfold splitter_step. destruct (splitter_running s); [|done].
    by destruct r.
  - destruct (loopers s !! i) as [t|]; [|done].
    unfold single_inv, put_looper. cbn [world exited]. intros Hex.
    destruct (looper_step_single fl (rcvr_fc rcvr) (start s) t (conduit_of s (t_in t)) st
                (world s) Hsg Hex) as (Hs & msgs & -> & Hnew & _).
    split; [set_solver|]. intros m [Hm'|Hm']%elem_of_app; [|by apply Hnew].
    specialize (Hout m Hm'). set_solver.
  - unfold wg_Wait. by destruct (wg s =? 0).
Qed.

Lemma sys_run_single_inv fl rcvr U0 sched :
  single fl = true → ∀ s, single_inv U0 s → single_inv U0 (sys_run fl rcvr s sched).
Proof.
  intros Hsg. induction sched as [|a sched IH]; intros s Hinv; [done|].
  unfold sys_run in *. simpl. by apply IH, sys_step_single_inv.
Qed.

Lemma Run_single_inv rcvr w0 : trace w0 = [] → single_inv (UintMap w0) (Run rcvr w0).
Proof.
  intros Htr _. unfold Run. destruct (rcvr_q rcvr); simpl; rewrite Htr;
    (split; [done|by intros ? ?%elem_of_nil]).
Qed.



End Properties.
(** * The properties on concrete runs *)

Import Demo.

Lemma sys_run_app `{Extern} fl rcvr s l1 l2 :
  sys_run fl rcvr s (l1 ++ l2) = sys_run fl rcvr (sys_run fl rcvr s l1) l2.
Proof. apply fold_left_app. Qed.

(** C2.  Message type "scm", a signal pending at the looper's first
    [select]: the only looper returns, the WaitGroup counter is still
    1, [wg.Wait()] has not returned and never will. *)
Theorem C2_join_never_unblocks :
  let fl := flags "scm" false DevNull plain_Encoder [] in
  let s := sys_run fl (rcvr1 []) (Run (rcvr1 []) (world0 ∅))
                   [pass 0; ActLooper 0 sigint_stim; ActMain] in
  NewReceiver fl None = inr (rcvr1 [])
  ∧ map t_status (loopers s) = [Stopped Interrupted]
  ∧ exited s = false
  ∧ wg s = 1
  ∧ main_returned s = false
  ∧ ∀ sched, main_returned (sys_run fl (rcvr1 []) s sched) = false.
Proof.
  cbv zeta. do 5 (split; [reflexivity|]).
  intros sched. rewrite <- sys_run_app. apply Run_never_returns.
Qed.

(** C3.  Message type "scm", the looper inside [io.ReadFull] when
    [rcvr.Read] returns an error: the splitter stops, neither pipe is
    closed, and whatever is scheduled afterwards the state does not
    change: the looper stays inside [io.ReadFull]. *)
Theorem C3_read_error_leaves_looper_blocked :
  let fl := flags "scm" false DevNull plain_Encoder [] in
  let s := sys_run fl (rcvr1 []) (Run (rcvr1 []) (world0 ∅))
                   [pass 0; pass 0; ActSplitter (SrcErr "connection reset")] in
  splitter_running s = false
  ∧ cclosed (out s) = false ∧ cclosed (out2 s) = false
  ∧ map t_status (loopers s) = [InReadFull]
  ∧ exited s = false
  ∧ ∀ sched, sys_run fl (rcvr1 []) s sched = s.
Proof.
  cbv zeta. do 5 (split; [reflexivity|]).
  intros sched. induction sched as [|a sched IH]; [done|].
  unfold sys_run in *. cbn [fold_left].
  match goal with
  | |- fold_left _ _ (sys_step ?fl ?r ?s a) = _ =>
      assert (Hs : sys_step fl r s a = s)
  end.
  { destruct a as [r|[|i] st|]. all: reflexivity. }
  rewrite Hs. exact IH.
Qed.



(** C4 fails as stated: an encoder that is not the XML encoder and
    writes no new line after its records gets no separator; the two
    records of the block run together in the log file. *)
Lemma C4_counterexample :
  let fl := flags "scm" false DevNull gob_Encoder [] in
  let w' := res_world (looper_body fl [] toy []
                         (ReadOk (block Byte.x01 Byte.x02 Byte.x00 Byte.x00))
                         quiet_stim (world0 ∅)) in
  (∀ s m, ends_with_newline (Encode gob_Encoder s m).1.2 = false)
  ∧ length (encoded (trace w')) = 2%nat
  ∧ newlines (trace w') = 0%nat
  ∧ logFile w' = "gobgob"%string.
Proof. cbv zeta. split; [done|]. repeat split; vm_compute; reflexivity. Qed.

(** C5 fails as stated: the parser's buffer length is 2 and the
    message's Length is 4. *)
Lemma C5_counterexample :
  let fl := flags "scm" false DevNull plain_Encoder [] in
  let p := toy in
  let w' := res_world (looper_body fl [] p []
                         (ReadOk (block Byte.x05 Byte.x00 Byte.x00 Byte.x00))
                         quiet_stim (world0 ∅)) in
  BufferLength (Cfg p) = 2
  ∧ map Length (created (trace w')) = [4]
  ∧ ¬ Forall (fun m => Length m = BufferLength (Cfg p)) (created (trace w')).
Proof.
  cbv zeta. split; [reflexivity|]. split; [vm_compute; reflexivity|].
  vm_compute. intros Hall. inversion Hall as [|? ? Hm]. discriminate Hm.
Qed.


(** C7 on a run whose encoder fails. *)
Lemma C7_witness :
  let fl := flags "scm" false DevNull broken_Encoder [] in
  let rcvr := rcvr1 [] in
  let s := sys_run fl rcvr (Run rcvr (world0 ∅))
                   [feed (block Byte.x05 Byte.x00 Byte.x00 Byte.x00); pass 0] in
  let s' := sys_step fl rcvr s (pass 0) in
  exited s' = true
  ∧ ∃ evs,
      trace (world s') = trace (world s) ++ evs
      ∧ (∀ m e, EvEncodeFailed m e ∈ evs →
           exited s' = true
           ∧ ∃ pre, evs = pre ++ [EvEncodeFailed m e;
                                  EvFatal ("Error encoding message: " ++ e)])
      ∧ (exited s' = true → ∀ sched, sys_run fl rcvr s' sched = s').
Proof.
  cbv zeta. split; [reflexivity|].
  destruct (C7_fatal_errors_end_the_process
              (flags "scm" false DevNull broken_Encoder []) (rcvr1 [])
              (sys_run (flags "scm" false DevNull broken_Encoder []) (rcvr1 [])
                       (Run (rcvr1 []) (world0 ∅))
                       [feed (block Byte.x05 Byte.x00 Byte.x00 Byte.x00); pass 0])
              0%nat quiet_stim (mkTask toy In1 [] AtSelect)
              eq_refl eq_refl eq_refl)
    as (evs & Htr & _ & Henc & _ & Hfrozen).
  exists evs. split; [exact Htr|]. split; [exact Henc|exact Hfrozen].
Defined.

(** C9 on the message type "IDM". *)
Lemma C9_witness :
  let fl := flags "IDM" false DevNull plain_Encoder [] in
  length (loopers (Run (rcvr1 []) (world0 ∅))) = 1%nat
  ∧ ∀ sched,
      length (loopers (sys_run fl (rcvr1 []) (Run (rcvr1 []) (world0 ∅)) sched)) = 1%nat
      ∧ cwrites (out2 (sys_run fl (rcvr1 []) (Run (rcvr1 []) (world0 ∅)) sched)) = [].
Proof.
  cbv zeta.
  apply (C9_single_protocol_one_pipeline (flags "IDM" false DevNull plain_Encoder []) None).
  - reflexivity.
  - vm_compute. discriminate.
Defined.

(** * Further properties of the receiver *)

Section Coverage.
Context `{Extern}.






Lemma select_case_sigint fl st :
  select_case fl st = SelSigint → sigint_pending st = true.
Proof.
  unfold select_case.
  by destruct (sigint_pending st), (negb (timeLimit fl =? 0) && tLimit_fired st),
    (select_pick st).
Qed.

Lemma select_case_tlimit fl st :
  select_case fl st = SelTLimit → timeLimit fl ≠ 0 ∧ tLimit_fired st = true.
Proof.
  unfold select_case.
  destruct (Z.eqb_spec (timeLimit fl) 0), (tLimit_fired st), (sigint_pending st),
    (select_pick st); simpl; try done.
Qed.

(** What a pass through read and body can stop with: never the signal
    or the deadline; the completion set only in single-shot mode, after
    a logged packet and with an empty map; a fatal error only with the
    process gone. *)
Lemma looper_read_stop fl fc t c st w reason :
  t_status (ls_task (looper_read fl fc t c st w)) = Stopped reason →
  match reason with
  | Interrupted | DeadlineReached => False
  | CompletionSetEmpty =>
      single fl = true
      ∧ UintMap (ls_world (looper_read fl fc t c st w)) = ∅
      ∧ encoded (trace (ls_world (looper_read fl fc t c st w))) ≠ encoded (trace w)
      ∧ ls_exit (looper_read fl fc t c st w) = false
  | FatalError => ls_exit (looper_read fl fc t c st w) = true
  end.
Proof.
  unfold looper_read.
  destruct (conduit_ReadFull c _) as [[[block|e] c']|]; cbn [ls_task ls_exit ls_world].
  - pose proof (looper_body_post fl fc (t_parser t) (t_dec t) block st w)
      as (w1 & msgs & HF & HR).
    destruct (looper_body fl fc (t_parser t) (t_dec t) (ReadOk block) st w)
      as [[d' [|r0]] w'|w']; cbn [ls_task ls_exit ls_world t_status set_status].
    + done.
    + destruct HR as (_ & (Htr & _ & _) & _ & Hw' & Hctl).
      destruct (bool_decide_reflect (msgs = [])) as [->|Hne]; [done|].
      destruct (single fl) eqn:Hsg; [|done].
      destruct (size (UintMap w1) =? 0)%nat eqn:Hz; [|done]. simpl in Hctl.
      injection Hctl as ->. intros [= <-].
      apply Nat.eqb_eq, size_empty_iff in Hz.
      split; [done|].
      assert (HU : UintMap w' = UintMap w1) by (subst w'; by destruct (captures fl msgs)).
      assert (HE : encoded (trace w') = encoded (trace w) ++ msgs).
      { subst w'. destruct (captures fl msgs); simpl;
          rewrite Htr, ?encoded_app, encoded_records; simpl; by rewrite ?app_nil_r. }
      rewrite HU, HE. split; [by apply leibniz_equiv|]. split; [|done].
      intros Heq. apply (f_equal length) in Heq. rewrite length_app in Heq.
      destruct msgs; [done|]. simpl in Heq. lia.
    + by intros [= <-].
  - simpl. by intros [= <-].
  - simpl. done.
Qed.

(** The flag behind a stop: a step that newly stops a looper on the
    deadline has a non-zero time limit, one that stops it on the
    completion set runs in single-shot mode. *)
Lemma stop_needs_flag fl fc t0 t c st w reason :
  t_status t ≠ Stopped reason →
  t_status (ls_task (looper_step fl fc t0 t c st w)) = Stopped reason →
  match reason with
  | DeadlineReached => timeLimit fl ≠ 0
  | CompletionSetEmpty => single fl = true
  | _ => True
  end.
Proof.
  intros Hnot. unfold looper_step.
  destruct (t_status t) as [| | |r0] eqn:Hst.
  - destruct (BlockSize2 (Cfg (t_parser t)) <? 0); simpl; [by intros [= <-]|done].
  - destruct (select_case fl st) eqn:Hsel; cbn [ls_task].
    + simpl. by intros [= <-].
    + simpl. intros [= <-]. by apply select_case_tlimit in Hsel as [? ?].
    + intros Hs. apply looper_read_stop in Hs. destruct reason; try done. by destruct Hs.
  - intros Hs. apply looper_read_stop in Hs. destruct reason; try done. by destruct Hs.
  - simpl. rewrite Hst. intros [= ->]. by destruct Hnot.
Qed.

(** Every stop has its cause.  When a scheduling step takes a looper to
    [Stopped reason]: [Interrupted] needs a pending signal at the
    [select], and nothing was read or changed; [DeadlineReached] needs a
    non-zero time limit whose timer has fired, and nothing was read;
    [CompletionSetEmpty] needs single-shot mode, a pass that logged a
    packet and an empty identifier map; [FatalError] means the process
    has exited. *)
Theorem stop_reason_has_cause fl fc t0 t c st w reason :
  t_status t ≠ Stopped reason →
  t_status (ls_task (looper_step fl fc t0 t c st w)) = Stopped reason →
  match reason with
  | Interrupted =>
      t_status t = AtSelect ∧ sigint_pending st = true
      ∧ ls_world (looper_step fl fc t0 t c st w) = w
      ∧ ls_conduit (looper_step fl fc t0 t c st w) = c
  | DeadlineReached =>
      t_status t = AtSelect ∧ timeLimit fl ≠ 0 ∧ tLimit_fired st = true
      ∧ ls_conduit (looper_step fl fc t0 t c st w) = c
      ∧ sampleFile (ls_world (looper_step fl fc t0 t c st w)) = sampleFile w
  | CompletionSetEmpty =>
      single fl = true
      ∧ UintMap (ls_world (looper_step fl fc t0 t c st w)) = ∅
      ∧ encoded (trace (ls_world (looper_step fl fc t0 t c st w))) ≠ encoded (trace w)
      ∧ ls_exit (looper_step fl fc t0 t c st w) = false
  | FatalError => ls_exit (looper_step fl fc t0 t c st w) = true
  end.
Proof.
  intros Hnot.
  pose proof (looper_read_stop fl fc t c st w reason) as Hread.
  unfold looper_step.
  destruct (t_status t) as [| | |r0] eqn:Hst.
  - destruct (BlockSize2 (Cfg (t_parser t)) <? 0); simpl; [by intros [= <-]|done].
  - destruct (select_case fl st) eqn:Hsel; cbn [ls_task ls_exit ls_world ls_conduit].
    + simpl. intros [= <-]. by apply select_case_sigint in Hsel.
    + simpl. intros [= <-]. by apply select_case_tlimit in Hsel as [? ?].
    + intros Hs. specialize (Hread Hs). by destruct reason.
  - intros Hs. specialize (Hread Hs). by destruct reason.
  - simpl. rewrite Hst. intros [= ->]. by destruct Hnot.
Qed.

(** A reason no step produces is a reason no looper ever stops with. *)
Lemma never_stops_with fl rcvr reason :
  (∀ t0 t c st w,
      t_status t ≠ Stopped reason →
      t_status (ls_task (looper_step fl (rcvr_fc rcvr) t0 t c st w)) ≠ Stopped reason) →
  ∀ sched s,
    Forall (fun t => t_status t ≠ Stopped reason) (loopers s) →
    Forall (fun t => t_status t ≠ Stopped reason) (loopers (sys_run fl rcvr s sched)).
Proof.
  intros Hstep. induction sched as [|a sched IH]; intros s Hall; [done|].
  unfold sys_run in *. cbn [fold_left]. apply IH.
  unfold sys_step. destruct (exited s || main_returned s); [done|].
  destruct a as [r|i st|].
  - unfold splitter_step. destruct (splitter_running s); [by destruct r|done].
  - destruct (loopers s !! i) as [t|] eqn:Ht; [|done].
    unfold put_looper. cbn [loopers]. apply Forall_insert; [done|].
    apply Hstep. rewrite Forall_forall in Hall. apply Hall. by eapply list_elem_of_lookup_2.
  - unfold wg_Wait. by destruct (wg s =? 0).
Qed.

Lemma Run_loopers_starting rcvr w :
  Forall (fun t => t_status t = Starting) (loopers (Run rcvr w)).
Proof. unfold Run. destruct (rcvr_q rcvr); simpl; by repeat constructor. Qed.

(** With the time limit flag at zero no looper ever stops on the
    deadline, whatever the timer oracle says. *)
Theorem no_time_limit_no_deadline fl rcvr w sched :
  timeLimit fl = 0 →
  Forall (fun t => t_status t ≠ Stopped DeadlineReached)
         (loopers (sys_run fl rcvr (Run rcvr w) sched)).
Proof.
  intros Hz. apply never_stops_with.
  - intros t0 t c st w0 Hnot Hs.
    by pose proof (stop_needs_flag fl _ t0 t c st w0 DeadlineReached Hnot Hs).
  - eapply Forall_impl; [apply Run_loopers_starting|]. by intros t ->.
Qed.

(** Without single-shot mode the packet loop never touches the
    identifier map, whether it ends normally or in [log.Fatal]. *)
Lemma range_packets_keeps_map fl fc p pkts :
  single fl = false →
  ∀ found w, UintMap (res_world (range_packets fl fc p pkts found w)) = UintMap w.
Proof.
  intros Hsg. induction pkts as [|pkt rest IH]; intros found w; [done|].
  simpl. unfold bind at 1. unfold fc_Match.
  destruct (Match fc (UintMap w) (fcst w) pkt) as [[] s].
  - unfold bind at 1. unfold new_LogMessage, bind, time_Now, sampleFile_Seek_cur, ret,
      encoder_Encode. simpl.
    destruct (Encode (encoder fl) _ _) as [[s' out'] [e|]]; simpl; [done|].
    rewrite Hsg.
    destruct (is_xml_Encoder (encoder fl)); simpl; by rewrite IH.
  - simpl. by rewrite IH.
Qed.

Lemma looper_body_keeps_map fl fc p d rd st w :
  single fl = false →
  UintMap (res_world (looper_body fl fc p d rd st w)) = UintMap w.
Proof.
  intros Hsg. destruct rd as [block|e]; [|done].
  unfold looper_body.
  destruct (Decode p d block) as [d1 indices]. destruct (Parse p d1 indices) as [d2 pkts].
  unfold bind at 1.
  pose proof (range_packets_keeps_map fl fc p pkts Hsg false w) as HU.
  destruct (range_packets fl fc p pkts false w) as [[] w1|w1]; simpl in *; [|done|done].
  rewrite Hsg. simpl.
  destruct (bool_decide (sampleFilename fl ≠ DevNull)); [|done].
  unfold bind, sampleFile_Write, log_Fatal, len_UintMap, ret.
  by destruct (write_error st) as [[n e]|].
Qed.

Lemma looper_step_keeps_map fl fc t0 t c st w :
  single fl = false →
  UintMap (ls_world (looper_step fl fc t0 t c st w)) = UintMap w.
Proof.
  intros Hsg.
  destruct (looper_step_view fl fc t0 t c st w)
    as [[s' ->]|[[_ ->]|[->|(rd & c' & _ & Hr & ->)]]]; try done.
  rewrite (proj1 (step_of_body_world _ _ _)). by apply looper_body_keeps_map.
Qed.

(** Without the single-shot flag the identifier map is never changed
    and no looper ever stops on the completion set, in any run, fatal
    errors included. *)
Theorem without_single_flag_map_is_untouched fl rcvr w sched :
  single fl = false →
  UintMap (world (sys_run fl rcvr (Run rcvr w) sched)) = UintMap w
  ∧ Forall (fun t => t_status t ≠ Stopped CompletionSetEmpty)
           (loopers (sys_run fl rcvr (Run rcvr w) sched)).
Proof.
  intros Hsg. split.
  - assert (Hgen : ∀ s, UintMap (world (sys_run fl rcvr s sched)) = UintMap (world s)).
    { induction sched as [|a sched IH]; intros s; [done|].
      unfold sys_run in *. cbn [fold_left]. rewrite IH.
      unfold sys_step. destruct (exited s || main_returned s); [done|].
      destruct a as [r|i st|].
      - unfold splitter_step. destruct (splitter_running s); [by destruct r|done].
      - destruct (loopers s !! i) as [t|]; [|done].
        unfold put_looper. cbn [world]. by apply looper_step_keeps_map.
      - unfold wg_Wait. by destruct (wg s =? 0). }
    rewrite Hgen. unfold Run. by destruct (rcvr_q rcvr).
  - apply never_stops_with.
    + intros t0 t c st w0 Hnot Hs.
      pose proof (stop_needs_flag fl _ t0 t c st w0 CompletionSetEmpty Hnot Hs) as Hs1.
      simpl in Hs1. congruence.
    + eapply Forall_impl; [apply Run_loopers_starting|]. by intros t ->.
Qed.


Lemma written_windows_records xml msgs :
  written_windows (flat_map (record_events xml) msgs) = [].
Proof. induction msgs as [|m msgs IH]; [done|]. destruct xml; simpl; by rewrite IH. Qed.

(** What one scheduling step of a looper adds to the log and to the
    capture file. *)
Lemma looper_step_log fl fc t0 t c st w :
  let r := looper_step fl fc t0 t c st w in
  ∃ evs written,
    trace (ls_world r) = trace w ++ evs
    ∧ sampleFile (ls_world r) = sampleFile w ++ written
    ∧ clock (ls_world r) = clock w
    ∧ (ticks w + length (created evs) ≤ ticks (ls_world r))%nat
    ∧ map Time (created evs) = map (clock w) (seq (ticks w) (length (created evs)))
    ∧ Forall (fun m => Offset m = Z.of_nat (length (sampleFile w))) (created evs)
    ∧ (ls_exit r = false → written = concat (written_windows evs)).
Proof.
  assert (Hnone : ∀ w' e (b : bool), trace w' = trace w ++ [e] → sampleFile w' = sampleFile w →
                   clock w' = clock w → (ticks w ≤ ticks w')%nat →
                   created [e] = [] → written_windows [e] = [] →
                   ∃ evs written,
                     trace w' = trace w ++ evs
                     ∧ sampleFile w' = sampleFile w ++ written
                     ∧ clock w' = clock w
                     ∧ (ticks w + length (created evs) ≤ ticks w')%nat
                     ∧ map Time (created evs) = map (clock w) (seq (ticks w) (length (created evs)))
                     ∧ Forall (fun m => Offset m = Z.of_nat (length (sampleFile w))) (created evs)
                     ∧ (b = false → written = concat (written_windows evs))).
  { intros w' e b Htr Hsf Hck Htk Hcr Hww. exists [e], []. rewrite Hcr, Hww, app_nil_r. simpl.
    repeat split; try done. lia. }
  destruct (looper_step_view fl fc t0 t c st w)
    as [[s' ->]|[[_ ->]|[->|(rd & c' & _ & Hr & ->)]]]; cbn [ls_world ls_exit].
  - exists [], []. rewrite !app_nil_r. simpl. repeat split; try done. lia.
  - apply (Hnone _ (EvFatal "panic: makeslice: len out of range")); simpl; try done.
  - apply (Hnone _ (EvTimeLimit (clock w (ticks w) - t0))); simpl; try done. lia.
  - destruct (step_of_body_world t c' (looper_body fl fc (t_parser t) (t_dec t) rd st w))
      as [-> ->].
    destruct rd as [block|e].
    2:{ apply (Hnone _ (EvFatal ("Error reading samples: " ++ e))); simpl; try done. }
    pose proof (looper_body_post fl fc (t_parser t) (t_dec t) block st w)
      as (w1 & msgs & HF & HR).
    destruct HF as (Hsf & Hck & Htk & Htime & Hall & _).
    assert (Hoff : Forall (fun m => Offset m = Z.of_nat (length (sampleFile w))) msgs).
    { eapply Forall_impl; [exact Hall|]. by intros m [? _]. }
    destruct (looper_body fl fc (t_parser t) (t_dec t) (ReadOk block) st w)
      as [[d' ctl] w'|w']; cbn [res_world res_exit].
    + destruct HR as (_ & (Htr & _ & _) & _ & -> & _).
      destruct (captures fl msgs).
      * exists (flat_map (record_events (is_xml_Encoder (encoder fl))) msgs
                ++ [EvSampleWrite (IQ (t_parser t) (Parse (t_parser t)
                      (Decode (t_parser t) (t_dec t) block).1
                      (Decode (t_parser t) (t_dec t) block).2).1)]),
          (IQ (t_parser t) (Parse (t_parser t)
                      (Decode (t_parser t) (t_dec t) block).1
                      (Decode (t_parser t) (t_dec t) block).2).1).
        rewrite created_app, created_records, app_nil_r.
        unfold written_windows at 1. rewrite omap_app.
        fold (written_windows (flat_map (record_events (is_xml_Encoder (encoder fl))) msgs)).
        rewrite written_windows_records.
        cbn [trace emit sample_append sampleFile clock ticks].
        rewrite Htr, Hsf, Hck, Htk, <- app_assoc.
        split; [done|]. split; [done|]. split; [done|]. split; [lia|].
        split; [done|]. split; [done|]. intros _. simpl. by rewrite app_nil_r.
      * exists (flat_map (record_events (is_xml_Encoder (encoder fl))) msgs), [].
        rewrite created_records, written_windows_records.
        rewrite Htr, Hsf, Hck, Htk, app_nil_r.
        split; [done|]. split; [done|]. split; [done|]. split; [lia|].
        split; [done|]. split; [done|]. done.
    + destruct HR as [(ms & m & e & -> & -> & Htr)|(n & e & (Htr & _ & _) & _ & _ & ->)].
      * exists (flat_map (record_events (is_xml_Encoder (encoder fl))) ms
                ++ [EvAccept (Message m); EvEncodeFailed m e;
                    EvFatal ("Error encoding message: " ++ e)]), [].
        rewrite created_app, created_records.
        replace (created [EvAccept (Message m); EvEncodeFailed m e;
                          EvFatal ("Error encoding message: " ++ e)]) with [m] by done.
        rewrite Htr, Hsf, Hck, Htk, app_nil_r.
        split; [done|]. split; [done|]. split; [done|]. split; [lia|].
        split; [done|]. split; [done|]. done.
      * exists (flat_map (record_events (is_xml_Encoder (encoder fl))) msgs
                ++ [EvSampleWriteFailed (IQ (t_parser t) (Parse (t_parser t)
                      (Decode (t_parser t) (t_dec t) block).1
                      (Decode (t_parser t) (t_dec t) block).2).1) e;
                    EvFatal ("Error writing raw samples to file:" ++ e)]),
          (take n (IQ (t_parser t) (Parse (t_parser t)
                      (Decode (t_parser t) (t_dec t) block).1
                      (Decode (t_parser t) (t_dec t) block).2).1)).
        rewrite created_app, created_records, app_nil_r.
        cbn [trace emit sample_append sampleFile clock ticks].
        rewrite Htr, Hsf, Hck, Htk, <- !app_assoc.
        split; [done|]. split; [done|]. split; [done|]. split; [lia|].
        split; [done|]. split; [done|]. done.
Qed.

(** The same for one step of the process. *)
Lemma sys_step_log fl rcvr s a :
  ∃ evs written,
    trace (world (sys_step fl rcvr s a)) = trace (world s) ++ evs
    ∧ sampleFile (world (sys_step fl rcvr s a)) = sampleFile (world s) ++ written
    ∧ clock (world (sys_step fl rcvr s a)) = clock (world s)
    ∧ (ticks (world s) + length (created evs) ≤ ticks (world (sys_step fl rcvr s a)))%nat
    ∧ map Time (created evs)
      = map (clock (world s)) (seq (ticks (world s)) (length (created evs)))
    ∧ Forall (fun m => Offset m = Z.of_nat (length (sampleFile (world s)))) (created evs)
    ∧ (exited (sys_step fl rcvr s a) = false → written = concat (written_windows evs)).
Proof.
  assert (Hsame : ∀ s', world s' = world s →
            ∃ evs written,
              trace (world s') = trace (world s) ++ evs
              ∧ sampleFile (world s') = sampleFile (world s) ++ written
              ∧ clock (world s') = clock (world s)
              ∧ (ticks (world s) + length (created evs) ≤ ticks (world s'))%nat
              ∧ map Time (created evs)
                = map (clock (world s)) (seq (ticks (world s)) (length (created evs)))
              ∧ Forall (fun m => Offset m = Z.of_nat (length (sampleFile (world s))))
                       (created evs)
              ∧ (exited s' = false → written = concat (written_windows evs))).
  { intros s' ->. exists [], []. rewrite !app_nil_r. simpl. repeat split; try done. lia. }
  unfold sys_step. destruct (exited s || main_returned s); [by apply Hsame|].
  destruct a as [r|i st|].
  - apply Hsame. unfold splitter_step. destruct (splitter_running s); [by destruct r|done].
  - destruct (loopers s !! i) as [t|]; [|by apply Hsame].
    unfold put_looper. cbn [world exited]. apply looper_step_log.
  - apply Hsame. unfold wg_Wait. by destruct (wg s =? 0).
Qed.

(** The capture file is the concatenation of the windows written.  In
    a run that starts with an empty trace and that the process
    survives, the capture file is what it was at the start followed by
    the sample windows of the writes in the trace, in order; its length
    has grown by the sum of their lengths. *)
Theorem capture_file_is_the_windows_written fl rcvr w sched :
  trace w = [] →
  exited (sys_run fl rcvr (Run rcvr w) sched) = false →
  sampleFile (world (sys_run fl rcvr (Run rcvr w) sched))
  = sampleFile w ++ concat (written_windows (trace (world (sys_run fl rcvr (Run rcvr w) sched))))
  ∧ length (sampleFile (world (sys_run fl rcvr (Run rcvr w) sched)))
    = (length (sampleFile w)
       + sum_list (length <$> written_windows (trace (world (sys_run fl rcvr (Run rcvr w) sched)))))%nat.
Proof.
  intros Htr Hex.
  assert (Hgen : ∀ s f0,
            sampleFile (world s) = f0 ++ concat (written_windows (trace (world s))) →
            exited (sys_run fl rcvr s sched) = false →
            sampleFile (world (sys_run fl rcvr s sched))
            = f0 ++ concat (written_windows (trace (world (sys_run fl rcvr s sched))))).
  { clear. induction sched as [|a sched IH]; intros s f0 Hinv Hex; [done|].
    unfold sys_run in *. cbn [fold_left] in *.
    destruct (exited (sys_step fl rcvr s a)) eqn:He.
    { pose proof (sys_run_exited fl rcvr _ sched He) as Hs. unfold sys_run in Hs.
      rewrite Hs in Hex. congruence. }
    apply IH; [|done].
    destruct (sys_step_log fl rcvr s a) as (evs & written & -> & -> & _ & _ & _ & _ & Hw).
    rewrite (Hw He), Hinv. unfold written_windows. by rewrite omap_app, concat_app, app_assoc. }
  assert (H0 : sampleFile (world (Run rcvr w))
               = sampleFile w ++ concat (written_windows (trace (world (Run rcvr w))))).
  { unfold Run. destruct (rcvr_q rcvr); simpl; by rewrite Htr, app_nil_r. }
  pose proof (Hgen _ _ H0 Hex) as Hfile. split; [done|].
  by rewrite Hfile at 1; rewrite length_app, length_concat.
Qed.




(** The packet loop takes an identifier out of the map only for a
    message it has encoded. *)
Lemma range_packets_removes_logged fl fc p pkts :
  ∀ found w, removal_logged w (range_packets fl fc p pkts found w).
Proof.
  induction pkts as [|pkt rest IH]; intros found w.
  { exists []. simpl. rewrite app_nil_r. split; [done|]. by intros x Hx Hn. }
  simpl. unfold bind at 1. unfold fc_Match.
  destruct (Match fc (UintMap w) (fcst w) pkt) as [[] s].
  - unfold bind at 1. unfold new_LogMessage, bind, time_Now, sampleFile_Seek_cur, ret,
      encoder_Encode. simpl.
    set (msg := mkMsg _ _ _ _).
    destruct (Encode (encoder fl) _ _) as [[s' out'] [e|]]; simpl.
    { exists [EvAccept pkt; EvEncodeFailed msg e; EvFatal ("Error encoding message: " ++ e)].
      simpl. rewrite <- !app_assoc. split; [done|]. by intros x Hx Hn. }
    set (w0 := emit _ (EvEncode msg)).
    set (w1 := if is_xml_Encoder (encoder fl)
               then emit (log_append w0 newline) EvNewline else w0).
    assert (Hnl : (if is_xml_Encoder (encoder fl) then Fprintln_logFile
                   else λ w2 : World, Ok () w2) w0 = Ok () w1)
      by (subst w1; by destruct (is_xml_Encoder (encoder fl))).
    rewrite Hnl.
    assert (Hw1 : UintMap w1 = UintMap w
                  ∧ trace w1 = trace w ++ record_events (is_xml_Encoder (encoder fl)) msg).
    { subst w1 w0. unfold record_events.
      destruct (is_xml_Encoder (encoder fl)); simpl; split; try done; by rewrite <- !app_assoc. }
    destruct Hw1 as [HU Htr]. clearbody w1. clear Hnl w0.
    assert (Hmsg : ∀ tl, MeterID pkt
                         ∈ logged_ids (record_events (is_xml_Encoder (encoder fl)) msg ++ tl)).
    { intros tl. unfold logged_ids. rewrite encoded_app.
      unfold record_events. destruct (is_xml_Encoder (encoder fl)); simpl; set_solver. }
    assert (Hmono : ∀ tl x, x ∈ logged_ids tl →
                            x ∈ logged_ids (record_events (is_xml_Encoder (encoder fl)) msg ++ tl)).
    { intros tl x. unfold logged_ids. rewrite encoded_app, map_app, list_to_set_app_L.
      set_solver. }
    assert (Hcont : ∀ w2, UintMap w2 = UintMap w1 ∖ {[MeterID pkt]} ∨ UintMap w2 = UintMap w1 →
                          trace w2 = trace w1 →
                          removal_logged w (range_packets fl fc p rest true w2)).
    { intros w2 HU2 Htr2. destruct (IH true w2) as (evs & Hevs & Hrem).
      exists (record_events (is_xml_Encoder (encoder fl)) msg ++ evs).
      rewrite Hevs, Htr2, Htr, <- app_assoc. split; [done|].
      intros x Hx Hn. destruct (decide (x = MeterID pkt)) as [->|Hne]; [apply Hmsg|].
      apply Hmono, Hrem; [|done]. destruct HU2 as [-> | ->]; rewrite HU; set_solver. }
    destruct (single fl).
    + unfold len_UintMap. cbn beta.
      destruct (size (UintMap w1) =? 0)%nat.
      * exists (record_events (is_xml_Encoder (encoder fl)) msg). simpl.
        split; [done|]. intros x Hx Hn. rewrite HU in Hn. done.
      * unfold delete_UintMap. apply Hcont; [by left|done].
    + apply Hcont; [by right|done].
  - simpl. apply (IH found (set_fcst w s)).
Qed.

Lemma removal_logged_tail {A B} (w w1 : World) (r : Res A) (r' : Res B) tl :
  removal_logged w r → res_world r = w1 →
  trace (res_world r') = trace w1 ++ tl → UintMap (res_world r') = UintMap w1 →
  removal_logged w r'.
Proof.
  intros (evs & Htr & Hrem) <- Htr' HU'. exists (evs ++ tl).
  rewrite Htr', Htr, <- app_assoc. split; [done|].
  intros x Hx Hn. rewrite HU' in Hn. specialize (Hrem x Hx Hn).
  revert Hrem. unfold logged_ids. rewrite encoded_app, map_app, list_to_set_app_L. set_solver.
Qed.

Lemma removal_logged_none {A} (w : World) (r : Res A) tl :
  trace (res_world r) = trace w ++ tl → UintMap (res_world r) = UintMap w →
  removal_logged w r.
Proof.
  intros Htr HU. exists tl. split; [done|]. intros x Hx Hn. by rewrite HU in Hn.
Qed.

Lemma looper_body_removes_logged fl fc p d rd st w :
  removal_logged w (looper_body fl fc p d rd st w).
Proof.
  destruct rd as [block|e]; [|by eapply removal_logged_none].
  unfold looper_body.
  destruct (Decode p d block) as [d1 indices]. destruct (Parse p d1 indices) as [d2 pkts].
  unfold bind at 1.
  pose proof (range_packets_removes_logged fl fc p pkts false w) as Hloop.
  destruct (range_packets fl fc p pkts false w) as [[] w1|w1].
  - destruct (bool_decide (sampleFilename fl ≠ DevNull)).
    + unfold bind, sampleFile_Write, log_Fatal, len_UintMap, ret.
      destruct (write_error st) as [[n e]|]; simpl.
      * eapply (removal_logged_tail w w1 _ _ [_; _] Hloop); simpl; try done.
        by rewrite <- app_assoc.
      * destruct (single fl && (size (UintMap w1) =? 0)%nat);
          by eapply (removal_logged_tail w w1 _ _ [_] Hloop).
    + unfold bind, len_UintMap, ret. simpl.
      destruct (single fl && (size (UintMap w1) =? 0)%nat);
        eapply (removal_logged_tail w w1 _ _ [] Hloop); simpl; by rewrite ?app_nil_r.
  - eapply (removal_logged_tail w w1 _ _ [] Hloop); simpl; by rewrite ?app_nil_r.
  - eapply (removal_logged_tail w w1 _ _ [] Hloop); simpl; by rewrite ?app_nil_r.
Qed.

Lemma looper_step_removes_logged fl fc t0 t c st w :
  ∃ evs,
    trace (ls_world (looper_step fl fc t0 t c st w)) = trace w ++ evs
    ∧ ∀ x, x ∈ UintMap w → x ∉ UintMap (ls_world (looper_step fl fc t0 t c st w)) →
           x ∈ logged_ids evs.
Proof.
  destruct (looper_step_view fl fc t0 t c st w)
    as [[s' ->]|[[_ ->]|[->|(rd & c' & _ & Hr & ->)]]]; cbn [ls_world].
  - exists []. rewrite app_nil_r. split; [done|]. by intros x Hx Hn.
  - eexists. split; [done|]. by intros x Hx Hn.
  - eexists. split; [done|]. by intros x Hx Hn.
  - rewrite (proj1 (step_of_body_world _ _ _)). apply looper_body_removes_logged.
Qed.

(** From any state of the system, a schedule keeps the map inside
    [ids] and every identifier of [ids] in the map or in the log. *)
Lemma sys_run_removes_logged fl rcvr (ids : gset N) sched : ∀ s,
  UintMap (world s) ⊆ ids →
  (∀ x, x ∈ ids → x ∈ UintMap (world s) ∨ x ∈ logged_ids (trace (world s))) →
  UintMap (world (sys_run fl rcvr s sched)) ⊆ ids
  ∧ ∀ x, x ∈ ids →
         x ∈ UintMap (world (sys_run fl rcvr s sched))
         ∨ x ∈ logged_ids (trace (world (sys_run fl rcvr s sched))).
Proof.
  induction sched as [|a sched IH]; intros s Hsub Hinv; [done|].
  unfold sys_run in *. cbn [fold_left].
  assert (Hstep : ∃ evs,
            trace (world (sys_step fl rcvr s a)) = trace (world s) ++ evs
            ∧ UintMap (world (sys_step fl rcvr s a)) ⊆ UintMap (world s)
            ∧ ∀ x, x ∈ UintMap (world s) → x ∉ UintMap (world (sys_step fl rcvr s a)) →
                   x ∈ logged_ids evs).
  { assert (Hsame : ∀ s', world s' = world s →
              ∃ evs, trace (world s') = trace (world s) ++ evs
                     ∧ UintMap (world s') ⊆ UintMap (world s)
                     ∧ ∀ x, x ∈ UintMap (world s) → x ∉ UintMap (world s') →
                            x ∈ logged_ids evs).
    { intros s' ->. exists []. rewrite app_nil_r. split; [done|]. split; [done|].
      by intros x Hx Hn. }
    unfold sys_step. destruct (exited s || main_returned s); [by apply Hsame|].
    destruct a as [r|i st|].
    - apply Hsame. unfold splitter_step. destruct (splitter_running s); [by destruct r|done].
    - destruct (loopers s !! i) as [t|]; [|by apply Hsame].
      unfold put_looper. cbn [world].
      destruct (looper_step_removes_logged fl (rcvr_fc rcvr) (start s) t
                  (conduit_of s (t_in t)) st (world s)) as (evs & Hevs & Hrem).
      exists evs. split; [done|]. split; [|done].
      intros x Hx. destruct (decide (x ∈ UintMap (world s))) as [Hin|Hout]; [done|].
      exfalso. revert Hx Hout. clear.
      destruct (looper_step_view fl (rcvr_fc rcvr) (start s) t (conduit_of s (t_in t)) st
                  (world s))
        as [[s' ->]|[[_ ->]|[->|(rd & c' & _ & Hr & ->)]]]; cbn [ls_world]; try done.
      rewrite (proj1 (step_of_body_world _ _ _)).
      destruct rd as [block|e]; [|done].
      pose proof (looper_body_post fl (rcvr_fc rcvr) (t_parser t) (t_dec t) block st (world s))
        as (w1 & msgs & (_ & _ & _ & _ & _ & Hsub) & HR).
      destruct (looper_body _ _ _ _ _ _ _) as [[d' ctl] w'|w']; cbn [res_world].
      + destruct HR as (_ & _ & _ & -> & _). destruct (captures fl msgs); simpl; set_solver.
      + destruct HR as [(ms & m & e & _ & -> & _)|(n & e & _ & _ & _ & ->)]; simpl; set_solver.
    - apply Hsame. unfold wg_Wait. by destruct (wg s =? 0). }
  destruct Hstep as (evs & Hevs & Hsub' & Hrem).
  apply IH; [set_solver|].
  intros x Hx. rewrite Hevs.
  assert (Hgrow : ∀ y, y ∈ logged_ids (trace (world s)) ∨ y ∈ logged_ids evs →
                       y ∈ logged_ids (trace (world s) ++ evs)).
  { intros y. unfold logged_ids. rewrite encoded_app, map_app, list_to_set_app_L. set_solver. }
  destruct (Hinv x Hx) as [Hin|Hlog]; [|right; apply Hgrow; by left].
  destruct (decide (x ∈ UintMap (world (sys_step fl rcvr s a)))) as [Hin'|Hout]; [by left|].
  right. apply Hgrow. right. by apply Hrem.
Qed.

(** An identifier leaves the map only once it is in the log: in any
    run that starts with an empty trace, fatal errors included, every
    identifier of the initial map is still in the map or belongs to a
    logged message; and the map never gains an identifier. *)
Theorem identifier_removed_only_when_logged fl rcvr w sched :
  trace w = [] →
  UintMap (world (sys_run fl rcvr (Run rcvr w) sched)) ⊆ UintMap w
  ∧ ∀ x, x ∈ UintMap w →
         x ∈ UintMap (world (sys_run fl rcvr (Run rcvr w) sched))
         ∨ x ∈ logged_ids (trace (world (sys_run fl rcvr (Run rcvr w) sched))).
Proof.
  intros Htr.
  apply sys_run_removes_logged; unfold Run; destruct (rcvr_q rcvr); simpl; try done; by left.
Qed.

(** In single-shot mode the map is exactly what is left to find: in a
    run that starts with an empty trace and that the process survives,
    the identifier map is the initial map minus the identifiers of the
    logged messages. *)
Theorem single_shot_map_is_what_is_left fl rcvr w sched :
  single fl = true → trace w = [] →
  exited (sys_run fl rcvr (Run rcvr w) sched) = false →
  UintMap (world (sys_run fl rcvr (Run rcvr w) sched))
  = UintMap w ∖ logged_ids (trace (world (sys_run fl rcvr (Run rcvr w) sched))).
Proof.
  intros Hsg Htr Hex.
  assert (Hinit : UintMap (world (Run rcvr w)) ⊆ UintMap w
                  ∧ ∀ x, x ∈ UintMap w → x ∈ UintMap (world (Run rcvr w))
                                          ∨ x ∈ logged_ids (trace (world (Run rcvr w)))).
  { unfold Run; destruct (rcvr_q rcvr); simpl; split; try done; by left. }
  destruct (sys_run_removes_logged fl rcvr (UintMap w) sched _ (proj1 Hinit) (proj2 Hinit))
    as [Hsub Hleft].
  pose proof (sys_run_single_inv fl rcvr (UintMap w) sched Hsg _ (Run_single_inv rcvr w Htr) Hex)
    as [_ Hout].
  apply set_eq. intros x. rewrite elem_of_difference. split.
  - intros Hx. split; [set_solver|]. unfold logged_ids.
    rewrite elem_of_list_to_set, list_elem_of_fmap. intros (m & -> & Hm). by apply (Hout m).
  - intros [Hx Hn]. by destruct (Hleft x Hx).
Qed.

Lemma range_packets_at_most_one fl fc p pkts :
  single fl = true →
  ∀ found w, UintMap w = ∅ → at_most_one w (range_packets fl fc p pkts found w).
Proof.
  intros Hsg. induction pkts as [|pkt rest IH]; intros found w HU.
  { exists []. simpl. rewrite app_nil_r. repeat split; try done; lia. }
  simpl. unfold bind at 1. unfold fc_Match.
  destruct (Match fc (UintMap w) (fcst w) pkt) as [[] s].
  - unfold bind at 1. unfold new_LogMessage, bind, time_Now, sampleFile_Seek_cur, ret,
      encoder_Encode. simpl.
    set (msg := mkMsg _ _ _ _).
    destruct (Encode (encoder fl) _ _) as [[s' out'] [e|]]; simpl.
    { exists [EvAccept pkt; EvEncodeFailed msg e; EvFatal ("Error encoding message: " ++ e)].
      simpl. rewrite <- !app_assoc. repeat split; try done; lia. }
    rewrite Hsg. unfold len_UintMap.
    destruct (is_xml_Encoder (encoder fl)); simpl; rewrite HU, size_empty; simpl.
    + exists [EvAccept pkt; EvEncode msg; EvNewline]. simpl. rewrite <- !app_assoc.
      repeat split; try done; lia.
    + exists [EvAccept pkt; EvEncode msg]. simpl. rewrite <- !app_assoc.
      repeat split; try done; lia.
  - simpl. apply (IH found (set_fcst w s)). done.
Qed.

Lemma at_most_one_tail {A B} (w : World) (r : Res A) (r' : Res B) tl :
  at_most_one w r →
  trace (res_world r') = trace (res_world r) ++ tl →
  UintMap (res_world r') = UintMap (res_world r) →
  accepted tl = [] → created tl = [] → at_most_one w r'.
Proof.
  intros (evs & Htr & Ha & Hc & HU') Htr' HU'' Hta Htc.
  exists (evs ++ tl). rewrite Htr', Htr, <- app_assoc, accepted_app, created_app, Hta, Htc,
    !app_nil_r, HU''. done.
Qed.

Lemma looper_body_at_most_one fl fc p d rd st w :
  single fl = true → UintMap w = ∅ →
  at_most_one w (looper_body fl fc p d rd st w).
Proof.
  intros Hsg HU.
  destruct rd as [block|e].
  2:{ exists [EvFatal ("Error reading samples: " ++ e)]. simpl. repeat split; try done; lia. }
  unfold looper_body.
  destruct (Decode p d block) as [d1 indices]. destruct (Parse p d1 indices) as [d2 pkts].
  unfold bind at 1.
  pose proof (range_packets_at_most_one fl fc p pkts Hsg false w HU) as Hloop.
  destruct (range_packets fl fc p pkts false w) as [[] w1|w1].
  - destruct (bool_decide (sampleFilename fl ≠ DevNull)).
    + unfold bind, sampleFile_Write, log_Fatal, len_UintMap, ret.
      destruct (write_error st) as [[n e]|]; simpl.
      * apply (at_most_one_tail w _ _ [EvSampleWriteFailed (IQ p d2) e;
                              EvFatal ("Error writing raw samples to file:" ++ e)] Hloop);
          simpl; try done. by rewrite <- app_assoc.
      * destruct (single fl && (size (UintMap w1) =? 0)%nat);
          by apply (at_most_one_tail w _ _ [EvSampleWrite (IQ p d2)] Hloop).
    + unfold bind, len_UintMap, ret. simpl.
      destruct (single fl && (size (UintMap w1) =? 0)%nat);
        apply (at_most_one_tail w _ _ [] Hloop); simpl; by rewrite ?app_nil_r.
  - apply (at_most_one_tail w _ _ [] Hloop); simpl; by rewrite ?app_nil_r.
  - apply (at_most_one_tail w _ _ [] Hloop); simpl; by rewrite ?app_nil_r.
Qed.

(** One shot.  In single-shot mode with an empty identifier map, a
    pass over a block accepts and logs at most one packet, however
    many the block holds: the loop leaves at the first packet the
    filter chain accepts. *)
Theorem single_shot_without_ids_logs_one_packet fl fc p d rd st w :
  single fl = true → UintMap w = ∅ →
  ∃ evs,
    trace (res_world (looper_body fl fc p d rd st w)) = trace w ++ evs
    ∧ (length (accepted evs) ≤ 1)%nat
    ∧ (length (created evs) ≤ 1)%nat
    ∧ UintMap (res_world (looper_body fl fc p d rd st w)) = ∅.
Proof. intros Hsg HU. by apply looper_body_at_most_one. Qed.

Lemma shl1_small x : 0 ≤ x < 2 ^ 62 → shl1 x = 2 * x.
Proof.
  intros Hx. unfold shl1, wrap_int. rewrite Z.shiftl_mul_pow2 by lia.
  rewrite Z.mod_small; lia.
Qed.

(** Length in bytes.  For a buffer length below 2^62 the shift of line
    177 does not wrap: every message handed to [Encode] in a pass
    carries twice the parser's buffer length. *)
Theorem message_length_is_two_bytes_per_sample fl fc p d rd st w :
  0 ≤ BufferLength (Cfg p) < 2 ^ 62 →
  ∃ evs,
    trace (res_world (looper_body fl fc p d rd st w)) = trace w ++ evs
    ∧ Forall (fun m => Length m = 2 * BufferLength (Cfg p)) (created evs).
Proof.
  intros Hb.
  destruct (looper_body_trace fl fc p d rd st w)
    as (msgs & failed & tail & all & w1 & written & Htr & _ & HF & Hfail & Htail).
  eexists. split; [exact Htr|].
  assert (Hc : created tail = []).
  { by destruct Htail as [[-> _]|[(s & -> & _)|(iq & _ & _ & _ & [[-> _]|(e & n & -> & _)])]]. }
  rewrite !created_app, created_records, Hc, app_nil_r.
  assert (Hall : msgs ++ created failed = all).
  { destruct Hfail as [[-> ->]|(m & e & -> & _ & ->)]; [by rewrite app_nil_r|done]. }
  rewrite Hall. destruct HF as (_ & _ & _ & _ & Hforall & _).
  eapply Forall_impl; [exact Hforall|]. intros m [_ ->]. by apply shl1_small.
Qed.


Lemma fold_visit_flag names : ∀ acc,
  fold_left visit_flag names acc = acc ++ omap filter_of_flag names.
Proof.
  induction names as [|name names IH]; intros acc; simpl; [by rewrite app_nil_r|].
  rewrite IH. unfold visit_flag, filter_of_flag.
  destruct (String.eqb name "unique"); [by rewrite <- app_assoc|].
  destruct (String.eqb name "filterid"); [by rewrite <- app_assoc|].
  destruct (String.eqb name "filtertype"); [by rewrite <- app_assoc|done].
Qed.

(** The filter chain follows the flags.  The chain of a receiver holds
    one filter for each visited flag among unique, filterid and
    filtertype, in the order of the visit and nothing else: a filter
    is in the chain iff its flag was set. *)
Theorem filter_chain_follows_the_flags fl ce rcvr :
  NewReceiver fl ce = inr rcvr →
  rcvr_fc rcvr = omap filter_of_flag (visited fl)
  ∧ ∀ f, f ∈ rcvr_fc rcvr ↔ flag_of_filter f ∈ visited fl.
Proof.
  intros Hnew.
  assert (Hfc : rcvr_fc rcvr = omap filter_of_flag (visited fl)).
  { unfold NewReceiver in Hnew.
    destruct (if String.eqb (ToLower (msgType fl)) "scm" then _ else _) as [[p q]|]; [|done].
    destruct ce; [done|]. injection Hnew as <-. simpl. by rewrite fold_visit_flag. }
  split; [done|]. intros f. rewrite Hfc, list_elem_of_omap. split.
  - intros (name & Hin & Hf). unfold filter_of_flag in Hf.
    destruct (String.eqb_spec name "unique") as [->|_]; [by injection Hf as <-|].
    destruct (String.eqb_spec name "filterid") as [->|_]; [by injection Hf as <-|].
    destruct (String.eqb_spec name "filtertype") as [->|_]; [by injection Hf as <-|done].
  - intros Hin. exists (flag_of_filter f). split; [done|]. by destruct f.
Qed.

Lemma fold_visit_tuner_flag names : ∀ v,
  let v' := fold_left visit_tuner_flag names v in
  (centerfreqFlagSet v' = true ↔ centerfreqFlagSet v = true ∨ "centerfreq"%string ∈ names)
  ∧ (sampleRateFlagSet v' = true ↔ sampleRateFlagSet v = true ∨ "samplerate"%string ∈ names)
  ∧ (gainFlagSet v' = true ↔ gainFlagSet v = true ∨ Exists (fun n => n ∈ gain_flags) names).
Proof.
  induction names as [|name names IH]; intros v; simpl.
  { rewrite Exists_nil. set_solver. }
  destruct (IH (visit_tuner_flag v name)) as (-> & -> & ->).
  rewrite Exists_cons, !elem_of_cons. unfold visit_tuner_flag, gain_flags.
  destruct (String.eqb_spec name "centerfreq") as [->|N1].
  { simpl. rewrite !elem_of_cons, elem_of_nil. intuition congruence. }
  destruct (String.eqb_spec name "samplerate") as [->|N2].
  { simpl. rewrite !elem_of_cons, elem_of_nil. intuition congruence. }
  rewrite !elem_of_cons, elem_of_nil.
  destruct (String.eqb_spec name "gainbyindex") as [->|N3]; [simpl; intuition congruence|].
  destruct (String.eqb_spec name "tunergainmode") as [->|N4]; [simpl; intuition congruence|].
  destruct (String.eqb_spec name "tunergain") as [->|N5]; [simpl; intuition congruence|].
  destruct (String.eqb_spec name "agcmode") as [->|N6]; [simpl; intuition congruence|].
  simpl. intuition congruence.
Qed.

Lemma flag_is_decided (b : bool) (P : Prop) `{Decision P} :
  (b = true ↔ false = true ∨ P) → b = bool_decide P.
Proof. intros Hb. destruct b; case_bool_decide; intuition congruence. Qed.

(** The tuner is set from the flags, whatever their order or number.
    [NewReceiver] always sends one centre frequency first: the flag's
    when -centerfreq was given, the first parser's otherwise; it sends
    the first parser's sample rate unless -samplerate was given; and it
    switches the automatic gain on unless one of the four gain flags
    was given. *)
Theorem tuner_is_set_from_the_flags {D} names cf (p : Parser D) :
  tuner_commands names cf p
  = [SetCenterFreq (if bool_decide ("centerfreq"%string ∈ names) then cf
                    else CenterFreq (Cfg p))]
    ++ (if bool_decide ("samplerate"%string ∈ names) then []
        else [SetSampleRate (SampleRate (Cfg p) mod 2 ^ 32)])
    ++ (if bool_decide (Exists (fun n => n ∈ gain_flags) names) then []
        else [SetGainMode true]).
Proof.
  unfold tuner_commands.
  destruct (fold_visit_tuner_flag names (mkTunerFlags false false false)) as (H1 & H2 & H3).
  simpl in *.
  by rewrite (flag_is_decided _ _ H1), (flag_is_decided _ _ H2), (flag_is_decided _ _ H3).
Qed.






End Coverage.

(** * The further properties on concrete runs *)


(** A pending signal at the select. *)
Lemma stop_reason_has_cause_witness :
  let fl := flags "scm" false DevNull plain_Encoder [] in
  let t := mkTask toy In1 [] AtSelect in
  let r := looper_step fl [] 1000 t Pipe sigint_stim (world0 ∅) in
  t_status t = AtSelect ∧ sigint_pending sigint_stim = true
  ∧ ls_world r = world0 ∅ ∧ ls_conduit r = Pipe.
Proof.
  cbv zeta.
  apply (stop_reason_has_cause (flags "scm" false DevNull plain_Encoder []) [] 1000
           (mkTask toy In1 [] AtSelect) Pipe sigint_stim (world0 ∅) Interrupted).
  - discriminate.
  - reflexivity.
Defined.

(** No time limit: the timer oracle fires and nothing happens. *)
Lemma no_time_limit_no_deadline_witness :
  let fl := flags "scm" false DevNull plain_Encoder [] in
  Forall (fun t => t_status t ≠ Stopped DeadlineReached)
         (loopers (sys_run fl (rcvr1 []) (Run (rcvr1 []) (world0 ∅))
                           [pass 0; ActLooper 0 (mkStim false true false None)])).
Proof.
  cbv zeta.
  apply (no_time_limit_no_deadline (flags "scm" false DevNull plain_Encoder [])).
  reflexivity.
Defined.

(** Without -single the map {1, 2} survives a run that logs meter 1. *)
Lemma without_single_flag_map_is_untouched_witness :
  let fl := flags "scm" false DevNull plain_Encoder ["filterid"%string] in
  let s := sys_run fl (rcvr1 [MeterIDFilter]) (Run (rcvr1 [MeterIDFilter]) (world0 {[1%N; 2%N]}))
                   [feed (block Byte.x01 Byte.x00 Byte.x00 Byte.x00); pass 0; pass 0] in
  UintMap (world s) = UintMap (world0 {[1%N; 2%N]})
  ∧ Forall (fun t => t_status t ≠ Stopped CompletionSetEmpty) (loopers s).
Proof.
  cbv zeta.
  apply (without_single_flag_map_is_untouched
           (flags "scm" false DevNull plain_Encoder ["filterid"%string])
           (rcvr1 [MeterIDFilter]) (world0 {[1%N; 2%N]})).
  reflexivity.
Defined.


(** Two blocks with a packet each, capture on. *)
Lemma capture_file_is_the_windows_written_witness :
  let fl := flags "scm" false "samples.iq" plain_Encoder [] in
  let s := sys_run fl (rcvr1 []) (Run (rcvr1 []) (world0 ∅))
                   [feed (block Byte.x05 Byte.x00 Byte.x00 Byte.x00); pass 0; pass 0;
                    feed (block Byte.x00 Byte.x06 Byte.x00 Byte.x00); pass 0] in
  sampleFile (world s) = sampleFile (world0 ∅) ++ concat (written_windows (trace (world s)))
  ∧ length (sampleFile (world s))
    = (length (sampleFile (world0 ∅))
       + sum_list (length <$> written_windows (trace (world s))))%nat.
Proof.
  cbv zeta.
  apply (capture_file_is_the_windows_written
           (flags "scm" false "samples.iq" plain_Encoder []) (rcvr1 []) (world0 ∅)).
  - reflexivity.
  - reflexivity.
Defined.



Lemma identifier_removed_only_when_logged_witness :
  let fl := flags "scm" true DevNull plain_Encoder ["filterid"%string] in
  let s := sys_run fl (rcvr1 [MeterIDFilter]) (Run (rcvr1 [MeterIDFilter]) (world0 {[1%N; 2%N]}))
                   [feed (block Byte.x01 Byte.x00 Byte.x00 Byte.x00); pass 0; pass 0] in
  UintMap (world s) ⊆ UintMap (world0 {[1%N; 2%N]})
  ∧ ∀ x, x ∈ UintMap (world0 {[1%N; 2%N]}) →
         x ∈ UintMap (world s) ∨ x ∈ logged_ids (trace (world s)).
Proof.
  cbv zeta.
  apply (identifier_removed_only_when_logged
           (flags "scm" true DevNull plain_Encoder ["filterid"%string])
           (rcvr1 [MeterIDFilter]) (world0 {[1%N; 2%N]})).
  reflexivity.
Defined.

Lemma single_shot_map_is_what_is_left_witness :
  let fl := flags "scm" true DevNull plain_Encoder ["filterid"%string] in
  let s := sys_run fl (rcvr1 [MeterIDFilter]) (Run (rcvr1 [MeterIDFilter]) (world0 {[1%N; 2%N]}))
                   [feed (block Byte.x01 Byte.x00 Byte.x00 Byte.x00); pass 0; pass 0] in
  UintMap (world s) = UintMap (world0 {[1%N; 2%N]}) ∖ logged_ids (trace (world s)).
Proof.
  cbv zeta.
  apply (single_shot_map_is_what_is_left
           (flags "scm" true DevNull plain_Encoder ["filterid"%string])
           (rcvr1 [MeterIDFilter]) (world0 {[1%N; 2%N]})).
  - reflexivity.
  - reflexivity.
  - reflexivity.
Defined.

(** A block with three packets, -single and no -filterid. *)
Lemma single_shot_without_ids_logs_one_packet_witness :
  let fl := flags "scm" true DevNull plain_Encoder [] in
  let r := looper_body fl [] toy [] (ReadOk (block Byte.x05 Byte.x06 Byte.x07 Byte.x00))
                       quiet_stim (world0 ∅) in
  ∃ evs,
    trace (res_world r) = trace (world0 ∅) ++ evs
    ∧ (length (accepted evs) ≤ 1)%nat
    ∧ (length (created evs) ≤ 1)%nat
    ∧ UintMap (res_world r) = ∅.
Proof.
  cbv zeta.
  apply (single_shot_without_ids_logs_one_packet (flags "scm" true DevNull plain_Encoder [])).
  - reflexivity.
  - reflexivity.
Defined.

Lemma message_length_is_two_bytes_per_sample_witness :
  let fl := flags "scm" false DevNull plain_Encoder [] in
  let r := looper_body fl [] toy [] (ReadOk (block Byte.x05 Byte.x06 Byte.x00 Byte.x00))
                       quiet_stim (world0 ∅) in
  ∃ evs,
    trace (res_world r) = trace (world0 ∅) ++ evs
    ∧ Forall (fun m => Length m = 2 * BufferLength (Cfg toy)) (created evs).
Proof.
  cbv zeta.
  apply (message_length_is_two_bytes_per_sample (flags "scm" false DevNull plain_Encoder [])).
  simpl. lia.
Defined.

Lemma filter_chain_follows_the_flags_witness :
  let fl := flags "r900" false DevNull plain_Encoder
                  ["centerfreq"; "filtertype"; "quiet"; "unique"]%string in
  rcvr_fc (rcvr1 [MeterTypeFilter; UniqueFilter]) = omap filter_of_flag (visited fl)
  ∧ ∀ f, f ∈ rcvr_fc (rcvr1 [MeterTypeFilter; UniqueFilter])
         ↔ flag_of_filter f ∈ visited fl.
Proof.
  cbv zeta.
  apply (filter_chain_follows_the_flags
           (flags "r900" false DevNull plain_Encoder
                  ["centerfreq"; "filtertype"; "quiet"; "unique"]%string) None).
  reflexivity.
Defined.
